(** * tag-files: the [index] command and the tag handlers of [cli.py]

    A shallow embedding of [src/tag/cli.py] (and of the older copy
    [src/src/cli.py]) together with the properties of the index builder,
    the permutation engine and the tag handlers.

    Python values are rendered as follows: [str] is [string], a [set] of
    tags is a [gset string], the [index] dictionary is a
    [gmap string (list File)], a [file] dictionary is the record [File].
    The [os] module is an interface ([OS]) over an abstract filesystem
    state, threaded through a small state-and-exception monad together with
    the lines written by [click.echo]. *)

From Stdlib Require Import Ascii.
From stdpp Require Import gmap strings list sorting pretty.

Local Open Scope string_scope.
Local Open Scope list_scope.

#[local] Set Warnings "-clear-no-such-hyp".

(** ** Python [str] operations used by the code *)

Module Str.

(** [s[n:]] *)
Fixpoint drop (n : nat) (s : string) : string :=
  match n, s with
  | 0, _ => s
  | S _, EmptyString => EmptyString
  | S n', String _ s' => drop n' s'
  end.

(** [s[:n]] *)
Fixpoint take (n : nat) (s : string) : string :=
  match n, s with
  | 0, _ => EmptyString
  | S _, EmptyString => EmptyString
  | S n', String c s' => String c (take n' s')
  end.

(** [s.rfind(c) + 1]: one past the last occurrence of [c], [0] when [c]
    does not occur (Python's [rfind] answers [-1] then). *)
Fixpoint rfind1 (c : ascii) (s : string) : nat :=
  match s with
  | EmptyString => 0
  | String x s' =>
      match rfind1 c s' with
      | 0 => if decide (x = c) then 1 else 0
      | S i => S (S i)
      end
  end.

(** [s.startswith(c)] and [s.endswith(c)] for a one-character [c] *)
Definition startswith (c : ascii) (s : string) : bool :=
  match s with
  | String x _ => bool_decide (x = c)
  | EmptyString => false
  end.

Fixpoint endswith (c : ascii) (s : string) : bool :=
  match s with
  | EmptyString => false
  | String x EmptyString => bool_decide (x = c)
  | String _ s' => endswith c s'
  end.

(** [s.rstrip(c)] *)
Fixpoint rstrip (c : ascii) (s : string) : string :=
  match s with
  | EmptyString => EmptyString
  | String x s' =>
      match rstrip c s' with
      | EmptyString => if decide (x = c) then EmptyString else String x EmptyString
      | r => String x r
      end
  end.

(** [s == c * len(s)] *)
Fixpoint all_char (c : ascii) (s : string) : bool :=
  match s with
  | EmptyString => true
  | String x s' => bool_decide (x = c) && all_char c s'
  end.

(** [s.split(c)]: one more piece than there are occurrences of [c] *)
Fixpoint split (c : ascii) (s : string) : list string :=
  match s with
  | EmptyString => [EmptyString]
  | String x s' =>
      if decide (x = c) then EmptyString :: split c s'
      else match split c s' with
           | piece :: rest => String x piece :: rest
           | [] => [String x EmptyString]
           end
  end.

(** [sep.join(pieces)] *)
Definition join (sep : string) (pieces : list string) : string :=
  String.concat sep pieces.

(** [bool(s)]: a string is truthy when it is not empty *)
Definition truthy (s : string) : bool :=
  match s with EmptyString => false | _ => true end.

End Str.

(** ** [os.path] on POSIX ([posixpath.py]) *)

Definition os_sep : ascii := "/"%char.
Definition extsep : ascii := "."%char.

(** One round of the loop of [posixpath.join]. *)
Definition join_step (path b : string) : string :=
  if Str.startswith os_sep b then b
  else if negb (Str.truthy path) || Str.endswith os_sep path then path +:+ b
  else path +:+ String os_sep b.

(** [os.path.join(a, *p)] *)
Definition os_path_join (a : string) (p : list string) : string :=
  foldl join_step a p.

(** [os.path.split(p)] *)
Definition os_path_split (p : string) : string * string :=
  let i := Str.rfind1 os_sep p in
  let head := Str.take i p in
  let tail := Str.drop i p in
  (if Str.truthy head && negb (Str.all_char os_sep head)
   then Str.rstrip os_sep head else head, tail).

(** [os.path.splitext(p)]: the extension starts at the last dot of the last
    component, unless only dots precede it there. *)
Definition os_path_splitext (p : string) : string * string :=
  let sep1 := Str.rfind1 os_sep p in
  let dot1 := Str.rfind1 extsep p in
  if bool_decide (sep1 < dot1)
     && negb (Str.all_char extsep (Str.take (dot1 - 1 - sep1) (Str.drop sep1 p)))
  then (Str.take (dot1 - 1) p, Str.drop (dot1 - 1) p)
  else (p, EmptyString).

(** ** Data model *)

(** The dictionary that file discovery hands to [handle_file]. [_index]
    reads the keys [original], [dir], [filename] and [tags]; [base] and
    [ext] are the two halves of [filename] that the renaming engine
    serializes. *)
Record File := mkFile {
  original : string;
  dir : string;
  filename : string;
  base : string;
  ext : string;
  tags : gset string
}.

Global Instance File_eq_dec : EqDecision File.
Proof. solve_decision. Defined.

(** [sorted(xs)] on strings: ascending, by code unit. *)
Definition sorted (xs : list string) : list string :=
  merge_sort String.le xs.

(** ** The helpers of [util], which [cli.py] imports *)

Class Util := {
  (** what [util.permute] yields when [tree] is set *)
  permute_tree : list string → list (list string)
}.

(** Modelled from the spec: [util.permute], whose source is not part of
    [cli.py]. In flat mode it produces every ordering of the given tag
    list, each ordering being the segment sequence of a placement path. *)
Definition permute `{Util} (tag_list : list string) (tree : bool)
    : list (list string) :=
  if tree then permute_tree tag_list else permutations tag_list.

(** ** The index mapping of [_index] *)

(** [if path not in index: index[path] = []] then
    [index[path].append(file)] *)
Definition index_append (path : string) (file : File)
    (index : gmap string (list File)) : gmap string (list File) :=
  <[path := default [] (index !! path) ++ [file]]> index.

(** [os.path.join(output, *perm, filename)] with
    [filename = os.path.split(file['original'])[1]] *)
Definition index_path (output : string) (perm : list string) (file : File)
    : string :=
  os_path_join output (perm ++ [(os_path_split (original file)).2]).

(** The inner loop: one file, all its placement paths. *)
Definition index_file `{Util} (output : string) (tree : bool)
    (index : gmap string (list File)) (file : File)
    : gmap string (list File) :=
  foldl (λ idx perm, index_append (index_path output perm file) file idx)
        index (permute (sorted (elements (tags file))) tree).

(** The outer loop, from the empty dictionary. *)
Definition build_index `{Util} (output : string) (tree : bool)
    (file_list : list File) : gmap string (list File) :=
  foldl (index_file output tree) ∅ file_list.

(** [handle_file] keeps the files that carry at least one tag. *)
Definition tagged (found : list File) : list File :=
  filter (λ file, 0 < size (tags file)) found.

(** [sorted(index.keys())] *)
Definition sorted_keys (index : gmap string (list File)) : list string :=
  sorted (elements (dom index)).

(** The name [_index] gives to the link of a file that shares its key with
    other files: the file's directory below the search root, its segments
    joined by hyphens, goes between the base name and the extension.

    [path = file['dir'][len(abspath)+1:]]; [if path:] ... *)
Definition disambiguated (abspath : string) (file : File) : string :=
  let path := Str.drop (String.length abspath + 1) (dir file) in
  if Str.truthy path then
    let id := Str.join "-" (Str.split os_sep path) in
    let '(base, ext) := os_path_splitext (filename file) in
    base +:+ "-" +:+ id +:+ ext
  else filename file.

(** ** Effects: the filesystem, the console and exceptions *)

Inductive exn :=
  | ClickException (message : string)
  | OSError.

Inductive result (A : Type) :=
  | Ok (a : A)
  | Raise (e : exn).
Arguments Ok {A} a.
Arguments Raise {A} e.

(** The calls of the [os] module that the commands make, over a filesystem
    state [FS]. A call that raises answers [None]. *)
Class OS (FS : Type) := {
  os_path_abspath : FS → string → string;
  os_path_exists : FS → string → bool;
  os_listdir : FS → string → option (list string);
  os_makedirs : FS → string → option FS;          (* [exist_ok=True] *)
  os_symlink : FS → string → string → option FS;  (* [os.symlink(src, dst)] *)
  os_rename : FS → string → string → option FS
}.

(** [util.find_files(path, recursive, all, handle_file)]: the files it
    hands to [handle_file], in the order of the calls. *)
Class Discovery (FS : Type) := {
  find_files : FS → string → bool → bool → list File
}.

Record world (FS : Type) := World {
  w_fs : FS;
  w_stdout : list string   (* the lines written by [click.echo] *)
}.
Arguments World {FS} _ _.
Arguments w_fs {FS} _.
Arguments w_stdout {FS} _.

Definition M (FS A : Type) : Type := world FS → result A * world FS.

Global Instance M_ret {FS} : MRet (M FS) := λ A a w, (Ok a, w).
Global Instance M_bind {FS} : MBind (M FS) := λ A B f m w,
  match m w with
  | (Ok a, w') => f a w'
  | (Raise e, w') => (Raise e, w')
  end.

Definition raise {FS A} (e : exn) : M FS A := λ w, (Raise e, w).

Definition echo {FS} (line : string) : M FS unit :=
  λ w, (Ok (), World (w_fs w) (w_stdout w ++ [line])).

(** A call that reads the filesystem. *)
Definition ask {FS A} (f : FS → A) : M FS A := λ w, (Ok (f (w_fs w)), w).

(** A call that may raise and otherwise answers [a]. *)
Definition try_read {FS A} (f : FS → option A) : M FS A := λ w,
  match f (w_fs w) with
  | Some a => (Ok a, w)
  | None => (Raise OSError, w)
  end.

(** A call that may raise and otherwise changes the filesystem. *)
Definition try_write {FS} (f : FS → option FS) : M FS unit := λ w,
  match f (w_fs w) with
  | Some fs' => (Ok (), World fs' (w_stdout w))
  | None => (Raise OSError, w)
  end.

(** [if b: m] *)
Definition when {FS} (b : bool) (m : M FS unit) : M FS unit :=
  if b then m else mret ().

(** [for x in xs: body(x)] *)
Fixpoint for_each {FS A} (xs : list A) (body : A → M FS unit) : M FS unit :=
  match xs with
  | [] => mret ()
  | x :: xs' => body x ;; for_each xs' body
  end.

(** [for x in xs: acc = body(acc, x)] *)
Fixpoint for_fold {FS A B} (xs : list A) (body : B → A → M FS B) (acc : B)
    : M FS B :=
  match xs with
  | [] => mret acc
  | x :: xs' => acc' ← body acc x; for_fold xs' body acc'
  end.

(** [m] returns [a] after writing [lines], whatever the filesystem, and
    leaves the filesystem as it was. *)
Definition emits {FS A} (m : M FS A) (a : A) (lines : list string) : Prop :=
  ∀ w, m w = (Ok a, World (w_fs w) (w_stdout w ++ lines)).


Definition dquote : string := String (ascii_of_nat 34) EmptyString.

(** [f"{dst} -> {src}"] *)
Definition link_line (dst src : string) : string := dst +:+ " -> " +:+ src.

(** [f"{count} files {message}."] *)
Definition count_line (count : nat) (debug : bool) : string :=
  pretty count +:+ " files " +:+ (if debug then "to index" else "indexed")
  +:+ ".".

(** The last statement of [_index], the same in both copies. *)
Definition report_count {FS} (verbose debug : bool) (count : nat) : M FS unit :=
  when (verbose && bool_decide (0 < count))
       (echo EmptyString ;; echo (count_line count debug)).

(** ** [src/tag/cli.py] *)

Module Tag.
Section commands.
Context {FS : Type} `{!OS FS, !Discovery FS, !Util}.

Definition conflict_message (output : string) : string :=
  "Index directory " +:+ dquote +:+ output +:+ dquote
  +:+ " exists with content. "
  +:+ "Delete " +:+ dquote +:+ output +:+ dquote
  +:+ " or choose a different path.".

(** [os.path.exists(output) and os.listdir(output)] *)
Definition output_has_content (output : string) : M FS bool :=
  found ← ask (λ fs, os_path_exists fs output);
  if found : bool then
    entries ← try_read (λ fs, os_listdir fs output);
    mret (bool_decide (entries ≠ []))
  else mret false.

(** [if verbose: click.echo(...)] then [if not debug: os.symlink(src, dst)] *)
Definition place (debug verbose : bool) (src dst : string) : M FS unit :=
  when verbose (echo (link_line dst src)) ;;
  when (negb debug) (try_write (λ fs, os_symlink fs src dst)).

(** The body of [for key in sorted(index.keys())]. *)
Definition index_key (debug verbose : bool) (abspath : string)
    (index : gmap string (list File)) (count : nat) (key : string)
    : M FS nat :=
  let files := default [] (index !! key) in
  let index_len := length files in
  let count := count + index_len in
  let parent := (os_path_split key).1 in
  when (negb debug) (try_write (λ fs, os_makedirs fs parent)) ;;
  (if bool_decide (index_len = 1) then
     match files with
     | file :: _ =>
         place debug verbose (original file)
               (os_path_join parent [filename file])
     | [] => mret ()
     end
   else
     for_each files (λ file,
       place debug verbose (original file)
             (os_path_join parent [disambiguated abspath file]))) ;;
  mret count.

Definition _index (all debug recursive tree verbose : bool)
    (path output : string) : M FS unit :=
  abspath ← ask (λ fs, os_path_abspath fs path);
  conflict ← output_has_content output;
  if conflict : bool then raise (ClickException (conflict_message output))
  else
    found ← ask (λ fs, find_files fs abspath recursive all);
    let file_list := tagged found in
    let index := build_index output tree file_list in
    count ← for_fold (sorted_keys index)
                     (index_key debug verbose abspath index) 0;
    report_count verbose debug count.

End commands.
End Tag.

(** ** [src/src/cli.py], the older copy *)

Module Src.
Section commands.
Context {FS : Type} `{!OS FS, !Discovery FS, !Util}.

(** [if verbose: click.echo(f"{out_path} -> {file['original']}")] *)
Definition show (verbose : bool) (src out_path : string) : M FS unit :=
  when verbose (echo (link_line out_path src)).

Definition index_key (verbose : bool) (abspath : string)
    (index : gmap string (list File)) (count : nat) (key : string)
    : M FS nat :=
  let files := default [] (index !! key) in
  let index_len := length files in
  let count := count + index_len in
  let parent := (os_path_split key).1 in
  (if bool_decide (index_len = 1) then
     match files with
     | file :: _ =>
         show verbose (original file) (os_path_join parent [filename file])
     | [] => mret ()
     end
   else
     for_each files (λ file,
       show verbose (original file)
            (os_path_join parent [disambiguated abspath file]))) ;;
  mret count.

Definition _index (all debug recursive verbose : bool)
    (path output : string) : M FS unit :=
  abspath ← ask (λ fs, os_path_abspath fs path);
  found ← ask (λ fs, find_files fs abspath recursive all);
  let file_list := tagged found in
  let index := build_index output false file_list in
  count ← for_fold (sorted_keys index) (index_key verbose abspath index) 0;
  report_count verbose debug count.

End commands.
End Src.

(** ** The links of an index, as a list *)

(** The [(dst, src)] pairs that the body of the key loop works through for
    one key, in the order of [index[key]]. *)
Definition key_links (abspath : string) (index : gmap string (list File))
    (key : string) : list (string * string) :=
  let files := default [] (index !! key) in
  let parent := (os_path_split key).1 in
  if bool_decide (length files = 1) then
    match files with
    | file :: _ => [(os_path_join parent [filename file], original file)]
    | [] => []
    end
  else
    (λ file, (os_path_join parent [disambiguated abspath file],
              original file)) <$> files.

(** All of them, key after key in ascending order. *)
Definition planned_links (abspath : string) (index : gmap string (list File))
    : list (string * string) :=
  sorted_keys index ≫= key_links abspath index.

(** The lines that a run prints for one key. *)
Definition key_lines (verbose : bool) (abspath : string)
    (index : gmap string (list File)) (key : string) : list string :=
  if verbose then (λ l, link_line l.1 l.2) <$> key_links abspath index key
  else [].

(** The lines of a verbose run. *)
Definition report (debug : bool) (links : list (string * string))
    : list string :=
  ((λ l, link_line l.1 l.2) <$> links)
  ++ (if bool_decide (0 < length links)
      then [EmptyString; count_line (length links) debug] else []).

(** The [(key, file)] pairs of the two nested loops that fill [index], in
    the order in which the loops meet them. *)
Definition claims `{Util} (output : string) (tree : bool)
    (file_list : list File) : list (string * File) :=
  file ← file_list;
  perm ← permute (sorted (elements (tags file))) tree;
  [(index_path output perm file, file)].

(** The files that claim [key], in that order. *)
Definition occupants (key : string) (cs : list (string * File)) : list File :=
  (filter (λ c, c.1 = key) cs).*2.

(** ** The tag handlers of the six renaming commands *)

(** [tag_set.update(tag_list)] *)
Definition add_handler (tag_list : list string) (tag_set : gset string)
    : gset string :=
  tag_set ∪ list_to_set tag_list.

(** [tag_set.difference_update(tag_list)] *)
Definition remove_handler (tag_list : list string) (tag_set : gset string)
    : gset string :=
  tag_set ∖ list_to_set tag_list.

(** [tag_set.clear()] *)
Definition clear_handler (tag_set : gset string) : gset string := ∅.

(** [tag_set.clear(); tag_set.update(tag_list)] *)
Definition set_handler (tag_list : list string) (tag_set : gset string)
    : gset string :=
  add_handler tag_list (clear_handler tag_set).

(** [if old_tag in tag_set: tag_set.remove(old_tag); tag_set.add(new_tag)] *)
Definition rename_handler (old_tag new_tag : string) (tag_set : gset string)
    : gset string :=
  if decide (old_tag ∈ tag_set) then tag_set ∖ {[old_tag]} ∪ {[new_tag]}
  else tag_set.

(** [lambda tag_set: tag_set] *)
Definition sort_handler (tag_set : gset string) : gset string := tag_set.

(** Modelled from the spec: the tag codec's [serialize], whose source is
    not part of [cli.py]: one [{tag}] block per tag, in the order given,
    between the base name and the extension. *)
Definition serialize (base : string) (tag_list : list string) (ext : string)
    : string :=
  base +:+ String.concat EmptyString ((λ t, "{" +:+ t +:+ "}") <$> tag_list) +:+ ext.

(** Modelled from the spec: the path a file is renamed to, in the same
    directory, its tags serialized in ascending order. *)
Definition renamed (file : File) (tag_set : gset string) : string :=
  os_path_join (dir file)
    [serialize (base file) (sorted (elements tag_set)) (ext file)].

Section rename_files.
Context {FS : Type} `{!OS FS}.

(** Modelled from the spec: [util.rename_files], whose source is not part
    of [cli.py]. Each file is handled on its own: the handler changes the
    tag set, the name is serialized again, and when the path changed the
    old and the new path are printed if [verbose] is set and the file is
    renamed unless [debug] is set. *)
Definition rename_file (verbose debug : bool)
    (tag_handler : gset string → gset string) (file : File) : M FS unit :=
  let new := renamed file (tag_handler (tags file)) in
  when (bool_decide (new ≠ original file))
       (when verbose (echo (link_line (original file) new)) ;;
        when (negb debug)
             (try_write (λ fs, os_rename fs (original file) new))).

Definition rename_files (verbose debug : bool) (files : list File)
    (tag_handler : gset string → gset string) : M FS unit :=
  for_each files (rename_file verbose debug tag_handler).

(** The commands: [tag_list = tags.split(',')] where there is a [TAGS]
    argument, then [util.rename_files] with the command's handler. *)
Definition _add (verbose debug : bool) (tags : string) (files : list File)
    : M FS unit :=
  rename_files verbose debug files (add_handler (Str.split "," tags)).

Definition _remove (verbose debug : bool) (tags : string)
    (files : list File) : M FS unit :=
  rename_files verbose debug files (remove_handler (Str.split "," tags)).

Definition _rename (verbose debug : bool) (old_tag new_tag : string)
    (files : list File) : M FS unit :=
  rename_files verbose debug files (rename_handler old_tag new_tag).

Definition _sort (verbose debug : bool) (files : list File) : M FS unit :=
  rename_files verbose debug files sort_handler.

End rename_files.

(** ** A filesystem that keeps a journal

    An instance of the interfaces for the examples: the directories that
    exist before the run with their entries, and the journal of the calls
    that changed something. A second link at a path that has one raises, as
    [os.symlink] does. *)

Inductive fs_op :=
  | Makedirs (path : string)
  | Symlink (src dst : string)
  | Rename (src dst : string).

Global Instance fs_op_eq_dec : EqDecision fs_op.
Proof. solve_decision. Defined.

Record journal_fs := JournalFs {
  listing : gmap string (list string);
  discovered : list File;
  journal : list fs_op
}.

Definition linked (fs : journal_fs) (dst : string) : bool :=
  existsb (λ op, match op with
                 | Symlink _ dst' => bool_decide (dst' = dst)
                 | _ => false
                 end) (journal fs).

Definition record (op : fs_op) (fs : journal_fs) : journal_fs :=
  JournalFs (listing fs) (discovered fs) (journal fs ++ [op]).

Global Instance journal_os : OS journal_fs := {|
  os_path_abspath _ path := path;
  os_path_exists fs path := bool_decide (is_Some (listing fs !! path));
  os_listdir fs path := listing fs !! path;
  os_makedirs fs path := Some (record (Makedirs path) fs);
  os_symlink fs src dst :=
    if linked fs dst then None else Some (record (Symlink src dst) fs);
  os_rename fs src dst := Some (record (Rename src dst) fs)
|}.

Global Instance journal_discovery : Discovery journal_fs := {|
  find_files fs _ _ _ := discovered fs
|}.

(** When [m] returns on the journal filesystem, it has added [ops] to the
    journal. *)
Definition logs {A} (m : M journal_fs A) (ops : list fs_op) : Prop :=
  ∀ w a w', m w = (Ok a, w') → journal (w_fs w') = journal (w_fs w) ++ ops.

(** The calls that a real run makes for one key: the parent directory,
    then the links. *)
Definition key_ops (abspath : string) (index : gmap string (list File))
    (key : string) : list fs_op :=
  Makedirs (os_path_split key).1
  :: ((λ l, Symlink l.2 l.1) <$> key_links abspath index key).

(** Tree mode of the examples: the orderings again. *)
Definition flat_util : Util := {| permute_tree := permutations |}.

(** The files of the examples. *)
Definition x_foo : File :=
  mkFile "/r/x{foo}.txt" "/r" "x.txt" "x" ".txt" {["foo"]}.
Definition a_x_foo : File :=
  mkFile "/r/a/x{foo}.txt" "/r/a" "x.txt" "x" ".txt" {["foo"]}.
Definition b_x_foo : File :=
  mkFile "/r/b/x{foo}.txt" "/r/b" "x.txt" "x" ".txt" {["foo"]}.
Definition x_b_a : File :=
  mkFile "/r/x{b}{a}.txt" "/r" "x.txt" "x" ".txt" {["a"; "b"]}.
Definition x_a_b : File :=
  mkFile "/r/x{a}{b}.txt" "/r" "x.txt" "x" ".txt" {["a"; "b"]}.
Definition a_x_p_q : File :=
  mkFile "/r/a/x{p}{q}.txt" "/r/a" "x.txt" "x" ".txt" {["p"; "q"]}.
Definition b_x_q_p : File :=
  mkFile "/r/b/x{q}{p}.txt" "/r/b" "x.txt" "x" ".txt" {["p"; "q"]}.
Definition ab_x_foo : File :=
  mkFile "/ab/x{foo}.txt" "/ab" "x.txt" "x" ".txt" {["foo"]}.
Definition slash_a_x_foo : File :=
  mkFile "/a/x{foo}.txt" "/a" "x.txt" "x" ".txt" {["foo"]}.
Definition slash_b_x_foo : File :=
  mkFile "/b/x{foo}.txt" "/b" "x.txt" "x" ".txt" {["foo"]}.

Definition fresh_world (found : list File) : world journal_fs :=
  World (JournalFs ∅ found []) [].

(** ** [find] and [list]

    Both commands end in one [click.echo(message, nl=...)]; they are
    rendered as the text that this call puts on standard output, given
    whether standard output is a terminal. *)

Definition LF : string := String (ascii_of_nat 10) EmptyString.
Definition NUL : string := String (ascii_of_nat 0) EmptyString.

(** [delimiter = '\0' if null else '\n'] *)
Definition delimiter (null : bool) : string := if null then NUL else LF.

Definition ESC : ascii := ascii_of_nat 27.

(** The character class [[;?0-9]] of click's [_ansi_re]. *)
Definition is_param (c : ascii) : bool :=
  let n := nat_of_ascii c in
  ((48 <=? n) && (n <=? 57) || (n =? 59) || (n =? 63))%nat.

(** The character class [[a-zA-Z]]. *)
Definition is_letter (c : ascii) : bool :=
  let n := nat_of_ascii c in
  ((65 <=? n) && (n <=? 90) || (97 <=? n) && (n <=? 122))%nat.

(** The length of the match of [[;?0-9]*[a-zA-Z]] at the start of [s],
    when there is one. *)
Fixpoint params_letter (s : string) : option nat :=
  match s with
  | EmptyString => None
  | String c s' =>
      if is_param c then S <$> params_letter s'
      else if is_letter c then Some 1
      else None
  end.

(** For the text [s] after an escape character: the number of characters
    of [s] that a match of [\033\[[;?0-9]*[a-zA-Z]] takes, when the regular
    expression matches at the escape character. *)
Definition ansi_after_esc (s : string) : option nat :=
  match s with
  | String c s' =>
      if decide (c = "["%char) then S <$> params_letter s' else None
  | EmptyString => None
  end.

(** [_ansi_re.sub("", value)], from left to right; [skip] counts the
    characters of the current match that are still to be dropped. *)
Fixpoint strip_go (skip : nat) (s : string) : string :=
  match s with
  | EmptyString => EmptyString
  | String c s' =>
      match skip with
      | S skip' => strip_go skip' s'
      | 0 =>
          if decide (c = ESC) then
            match ansi_after_esc s' with
            | Some n => strip_go n s'
            | None => String c (strip_go 0 s')
            end
          else String c (strip_go 0 s')
      end
  end.

(** [click.utils.strip_ansi] *)
Definition strip_ansi (s : string) : string := strip_go 0 s.

(** [click.echo(message, nl=nl)]: the newline is added, and the ANSI escape
    sequences are taken out unless standard output is a terminal. *)
Definition echoed (isatty : bool) (message : string) (nl : bool) : string :=
  let out := if nl then message +:+ LF else message in
  if isatty then out else strip_ansi out.

(** [util.tree_output(path, file_list)], which [_find] calls under
    [--tree]. *)
Class TreeOutput := {
  tree_output : string → list string → list string
}.

(** [handle_file] of [_find]: [if tag in file['tags']] *)
Definition with_tag (tag : string) (found : list File) : list File :=
  filter (λ file, tag ∈ tags file) found.

(** [sorted(map(lambda f: f['original'], file_list))] *)
Definition find_paths (tag : string) (found : list File) : list string :=
  sorted (original <$> with_tag tag found).

Definition _find {FS : Type} `{!OS FS, !Discovery FS, !TreeOutput}
    (isatty : bool) (all null recursive tree : bool) (tag path : string)
    (fs : FS) : string :=
  let file_list := find_paths tag (find_files fs path recursive all) in
  let output := if tree then tree_output path file_list else file_list in
  echoed isatty (Str.join (delimiter null) output) (negb null).

(** [tags[tag] = 1 if not tag in tags else tags[tag] + 1] *)
Definition count_tag (counts : gmap string nat) (tag : string)
    : gmap string nat :=
  <[tag := match counts !! tag with
           | None => 1
           | Some n => n + 1
           end]> counts.

(** [handle_file] of [_list]: [for tag in file['tags']] *)
Definition count_file (counts : gmap string nat) (file : File)
    : gmap string nat :=
  foldl count_tag counts (elements (tags file)).

(** The dictionary [tags] of [_list] after discovery. *)
Definition tag_counts (found : list File) : gmap string nat :=
  foldl count_file ∅ found.

(** The loop [for tag in sorted(tags.keys())] that fills [output]. *)
Definition list_lines (count : bool) (counts : gmap string nat)
    : list string :=
  (λ tag, if count then tag +:+ ": " +:+ pretty (default 0 (counts !! tag))
          else tag)
  <$> sorted (elements (dom counts)).

Definition _list {FS : Type} `{!OS FS, !Discovery FS}
    (isatty : bool) (all count null recursive : bool) (path : string)
    (fs : FS) : string :=
  let counts := tag_counts (find_files fs path recursive all) in
  echoed isatty (Str.join (delimiter null) (list_lines count counts))
         (negb null).

(** [--tree] of the examples: the paths as they are. *)
Definition plain_tree : TreeOutput := {| tree_output _ paths := paths |}.

(** ** Predicates on runs *)

(** [m] raises nothing but the errors of the [os] calls. *)
Definition fails_in_os {FS A} (m : M FS A) : Prop :=
  ∀ w e w', m w = (Raise e, w') → e = OSError.

(** [c] does not occur in [s]: [s.rfind(c) == -1]. *)
Definition lacks (c : ascii) (s : string) : Prop := Str.rfind1 c s = 0.

Global Instance lacks_dec c s : Decision (lacks c s).
Proof. unfold lacks. apply _. Defined.

(** A path segment: a name that is not empty and holds no slash. *)
Definition segment (s : string) : Prop := s ≠ EmptyString ∧ lacks os_sep s.

(** What [os.path.join] puts before the first segment that follows [a]:
    [a] itself, with a slash unless [a] is empty or ends in one. *)
Definition joint (a : string) : string :=
  if negb (Str.truthy a) || Str.endswith os_sep a then a
  else a +:+ String os_sep EmptyString.

(** * Properties *)

(** ** The index mapping *)

Section index_mapping.
Context `{!Util}.

Lemma index_append_lookup path file (index : gmap string (list File)) key :
  index_append path file index !! key =
  if decide (path = key) then Some (default [] (index !! key) ++ [file])
  else index !! key.
Proof.
  unfold index_append. case_decide as Hk.
  - subst. by rewrite lookup_insert_eq.
  - by rewrite lookup_insert_ne.
Qed.

(** The dictionary after a run of appends, entry by entry. *)
Lemma appends_lookup (cs : list (string * File))
    (index : gmap string (list File)) key :
  foldl (λ idx c, index_append c.1 c.2 idx) index cs !! key =
  match occupants key cs with
  | [] => index !! key
  | files => Some (default [] (index !! key) ++ files)
  end.
Proof.
  revert index. induction cs as [|[path file] cs IH]; intros index; [done|].
  cbn [foldl]. rewrite IH, index_append_lookup. unfold occupants.
  rewrite filter_cons. cbn [fst snd]. case_decide as Hk; cbn [fmap list_fmap].
  - destruct (_ <$> filter _ cs) as [|f fs]; simpl; [done|].
    by rewrite <- (assoc_L (++)).
  - done.
Qed.

Lemma index_file_claims output tree index file :
  index_file output tree index file =
  foldl (λ idx c, index_append c.1 c.2 idx) index
        (claims output tree [file]).
Proof.
  unfold index_file, claims. cbn [mbind list_bind]. rewrite app_nil_r.
  generalize (permute (sorted (elements (tags file))) tree). intros perms.
  revert index. induction perms as [|perm perms IH]; intros index; [done|].
  cbn. apply IH.
Qed.

Lemma claims_cons output tree file file_list :
  claims output tree (file :: file_list) =
  claims output tree [file] ++ claims output tree file_list.
Proof. unfold claims. cbn [mbind list_bind]. by rewrite app_nil_r. Qed.

(** The two nested loops append the claims one after the other. *)
Lemma build_index_claims output tree file_list :
  build_index output tree file_list =
  foldl (λ idx c, index_append c.1 c.2 idx) ∅ (claims output tree file_list).
Proof.
  unfold build_index. generalize (∅ : gmap string (list File)).
  induction file_list as [|file file_list IH]; intros index; [done|].
  rewrite claims_cons, foldl_app. cbn [foldl].
  by rewrite IH, index_file_claims.
Qed.

(** Every entry of the index is the list of the files that claim its key,
    in the order of the loops; a key nobody claims has no entry. *)
Lemma build_index_lookup output tree file_list key :
  build_index output tree file_list !! key =
  match occupants key (claims output tree file_list) with
  | [] => None
  | files => Some files
  end.
Proof.
  rewrite build_index_claims, appends_lookup, lookup_empty. done.
Qed.

Lemma elem_of_claims output tree file_list key file :
  (key, file) ∈ claims output tree file_list ↔
  file ∈ file_list ∧
  ∃ perm, perm ∈ permute (sorted (elements (tags file))) tree
          ∧ key = index_path output perm file.
Proof.
  unfold claims. rewrite list_elem_of_bind. split.
  - intros (f & Hin & Hf). apply list_elem_of_bind in Hin as (perm & Hin & Hp).
    apply list_elem_of_singleton in Hin. simplify_eq. eauto.
  - intros (Hf & perm & Hp & ->). exists file. split; [|done].
    apply list_elem_of_bind. exists perm. split; [|done].
    by apply list_elem_of_singleton.
Qed.

Lemma elem_of_occupants key cs file :
  file ∈ occupants key cs ↔ (key, file) ∈ cs.
Proof.
  unfold occupants. rewrite list_elem_of_fmap. split.
  - intros ([k f] & -> & Hin). apply list_elem_of_filter in Hin as [Hk Hin].
    cbn in *. by subst.
  - intros Hin. exists (key, file). split; [done|].
    by apply list_elem_of_filter.
Qed.

End index_mapping.

Section index_claims.
Context `{!Util}.

(** What the two loops do: for every file with a non-empty tag set and
    every placement path of its sorted tags, the key is the output root
    joined with the segments of the path and with the last component of the
    file's original path, the name as found with its tag blocks; the entry
    of that key holds the files that claim it in the order in which the
    loops append them, the file among them. *)
Lemma index_key_from_original_name output tree found file perm :
  file ∈ tagged found →
  perm ∈ permute (sorted (elements (tags file))) tree →
  let key := os_path_join output (perm ++ [(os_path_split (original file)).2]) in
  build_index output tree (tagged found) !! key
  = Some (occupants key (claims output tree (tagged found)))
  ∧ file ∈ occupants key (claims output tree (tagged found)).
Proof.
  intros Hfile Hperm key.
  assert (file ∈ occupants key (claims output tree (tagged found))) as Hin.
  { apply elem_of_occupants, elem_of_claims. split; [done|]. by exists perm. }
  split; [|done]. rewrite build_index_lookup.
  destruct (occupants key _); [|done]. by apply not_elem_of_nil in Hin.
Qed.

End index_claims.

(** C1 fails on the code: [_index] keys the index on the name as found
    and not on the bare filename. The files [/r/a/x{p}{q}.txt] and
    [/r/b/x{q}{p}.txt] have the same bare filename and the same tags, and
    keyed on the bare filename they would share the keys [out/p/q/x.txt]
    and [out/q/p/x.txt] and get the links [x-a.txt] and [x-b.txt]. As it
    is, the index has no entry for those keys: it has four keys of one file
    each, both files get the link [out/p/q/x.txt], and the second
    [os.symlink] raises. *)
Theorem C1_bare_name_collision_missed :
  let found := [a_x_p_q; b_x_q_p] in
  let index := @build_index flat_util "out" false (tagged found) in
  filename a_x_p_q = filename b_x_q_p
  ∧ @permute flat_util (sorted (elements (tags a_x_p_q))) false
    = [["p"; "q"]; ["q"; "p"]]
  ∧ @permute flat_util (sorted (elements (tags b_x_q_p))) false
    = [["p"; "q"]; ["q"; "p"]]
  ∧ index !! os_path_join "out" (["p"; "q"] ++ [filename a_x_p_q]) = None
  ∧ index !! os_path_join "out" (["q"; "p"] ++ [filename a_x_p_q]) = None
  ∧ sorted_keys index
    = ["out/p/q/x{p}{q}.txt"; "out/p/q/x{q}{p}.txt";
       "out/q/p/x{p}{q}.txt"; "out/q/p/x{q}{p}.txt"]
  ∧ index !! "out/p/q/x{p}{q}.txt" = Some [a_x_p_q]
  ∧ index !! "out/p/q/x{q}{p}.txt" = Some [b_x_q_p]
  ∧ index !! "out/q/p/x{p}{q}.txt" = Some [a_x_p_q]
  ∧ index !! "out/q/p/x{q}{p}.txt" = Some [b_x_q_p]
  ∧ planned_links "/r" index
    = [("out/p/q/x.txt", "/r/a/x{p}{q}.txt");
       ("out/p/q/x.txt", "/r/b/x{q}{p}.txt");
       ("out/q/p/x.txt", "/r/a/x{p}{q}.txt");
       ("out/q/p/x.txt", "/r/b/x{q}{p}.txt")]
  ∧ @Tag._index _ _ _ flat_util false false true false true "/r" "out"
      (fresh_world found)
    = (Raise OSError,
       World (JournalFs ∅ found
                [Makedirs "out/p/q";
                 Symlink "/r/a/x{p}{q}.txt" "out/p/q/x.txt";
                 Makedirs "out/p/q"])
             ["out/p/q/x.txt -> /r/a/x{p}{q}.txt";
              "out/p/q/x.txt -> /r/b/x{q}{p}.txt"])
  ∧ disambiguated "/r" a_x_p_q = "x-a.txt"
  ∧ disambiguated "/r" b_x_q_p = "x-b.txt".
Proof. vm_compute. split_and!; reflexivity. Qed.

(** ** The orderings of a list without repetition *)

Section orderings.
Context {A : Type} `{!EqDecision A}.
Implicit Types (x : A) (l p q : list A).

Lemma length_interleave x l : length (interleave x l) = S (length l).
Proof.
  induction l as [|y l IH]; [done|].
  cbn [interleave length]. by rewrite length_fmap, IH.
Qed.

Lemma filter_other_id x l : x ∉ l → filter (λ y, y ≠ x) l = l.
Proof.
  induction l as [|y l IH]; [done|].
  intros [Hy Hl]%not_elem_of_cons.
  rewrite filter_cons_True by done. by rewrite IH.
Qed.

(** Taking [x] out again gives back the list it was put into. *)
Lemma interleave_filter x l q :
  x ∉ l → q ∈ interleave x l → filter (λ y, y ≠ x) q = l.
Proof.
  revert q. induction l as [|y l IH]; intros q Hx Hq.
  - apply list_elem_of_singleton in Hq as ->.
    by rewrite filter_cons_False by naive_solver.
  - apply not_elem_of_cons in Hx as [Hxy Hx].
    cbn [interleave] in Hq. apply elem_of_cons in Hq as [->|Hq].
    + rewrite filter_cons_False by naive_solver.
      apply filter_other_id. by apply not_elem_of_cons.
    + apply list_elem_of_fmap in Hq as (q' & -> & Hq').
      rewrite filter_cons_True by done. f_equal. by apply IH.
Qed.

Lemma NoDup_interleave x l : x ∉ l → NoDup (interleave x l).
Proof.
  induction l as [|y l IH]; intros Hx.
  - apply NoDup_singleton.
  - apply not_elem_of_cons in Hx as [Hxy Hx].
    cbn [interleave]. apply NoDup_cons. split.
    + intros (q & Hq & _)%list_elem_of_fmap. congruence.
    + apply (NoDup_fmap_2 _). by apply IH.
Qed.

Lemma length_bind_const {B} (f : list A → list B) (ls : list (list A)) k :
  (∀ p, p ∈ ls → length (f p) = k) → length (ls ≫= f) = length ls * k.
Proof.
  induction ls as [|p ls IH]; intros Hf; [done|].
  cbn [mbind list_bind]. rewrite length_app. cbn [length].
  rewrite Hf by apply list_elem_of_here.
  rewrite IH; [lia|]. intros q Hq. apply Hf. by apply list_elem_of_further.
Qed.

Lemma length_permutations l : length (permutations l) = fact (length l).
Proof.
  induction l as [|x l IH]; [done|].
  cbn [permutations]. rewrite (length_bind_const _ _ (S (length l))).
  - rewrite IH. cbn [length fact]. lia.
  - intros p Hp%permutations_Permutation.
    by rewrite length_interleave, <- Hp.
Qed.

Lemma NoDup_permutations l : NoDup l → NoDup (permutations l).
Proof.
  induction 1 as [|x l Hx Hl IH]; [apply NoDup_singleton|].
  cbn [permutations]. apply NoDup_bind; [|  |done].
  - intros p1 p2 q Hp1%permutations_Permutation Hp2%permutations_Permutation
      Hq1 Hq2.
    assert (x ∉ p1) by (by rewrite <- Hp1).
    assert (x ∉ p2) by (by rewrite <- Hp2).
    by rewrite <- (interleave_filter x p1 q), <- (interleave_filter x p2 q).
  - intros p Hp%permutations_Permutation.
    apply NoDup_interleave. by rewrite <- Hp.
Qed.

End orderings.

(** ** Sorting *)

Lemma sorted_Permutation xs : sorted xs ≡ₚ xs.
Proof. apply merge_sort_Permutation. Qed.

Lemma sorted_StronglySorted xs : StronglySorted String.le (sorted xs).
Proof. apply (StronglySorted_merge_sort _). Qed.

(** The sorted list does not depend on the order in which the elements
    come. *)
Lemma sorted_canonical xs ys : xs ≡ₚ ys → sorted xs = sorted ys.
Proof.
  intros Hperm.
  apply (StronglySorted_unique String.le); [apply sorted_StronglySorted..|].
  by rewrite !sorted_Permutation.
Qed.

Lemma length_sorted xs : length (sorted xs) = length xs.
Proof. by rewrite sorted_Permutation. Qed.

(** ** The permutation engine *)

Section engine.
Context `{!Util}.

(** C4: in flat mode the engine returns, for a tag set of [N] tags, exactly
    [N!] placement paths, no two of them equal, and they are the
    permutations of the sorted tag list. *)
Theorem C4_flat_mode_yields_all_orderings (tag_set : gset string) :
  let tag_list := sorted (elements tag_set) in
  length (permute tag_list false) = fact (size tag_set)
  ∧ NoDup (permute tag_list false)
  ∧ ∀ perm, perm ∈ permute tag_list false ↔ perm ≡ₚ tag_list.
Proof.
  intros tag_list. unfold permute. split_and!.
  - rewrite length_permutations. unfold tag_list.
    by rewrite length_sorted.
  - apply NoDup_permutations. unfold tag_list.
    rewrite sorted_Permutation. apply NoDup_elements.
  - intros perm. by rewrite permutations_Permutation.
Qed.

(** C5: two tag sets of equal content, in whatever order their tags are
    enumerated, give the same list of placement paths, in the same order:
    the tags are sorted before they are permuted. *)
Theorem C5_placement_paths_deterministic (tags1 tags2 : list string) tree :
  NoDup tags1 → NoDup tags2 →
  list_to_set tags1 =@{gset string} list_to_set tags2 →
  permute (sorted tags1) tree = permute (sorted tags2) tree.
Proof.
  intros Hnd1 Hnd2 Heq. f_equal. apply sorted_canonical.
  apply NoDup_Permutation; [done..|].
  intros tag. by rewrite <- !(elem_of_list_to_set (C:=gset string)), Heq.
Qed.

End engine.

Lemma C5_placement_paths_deterministic_witness :
  NoDup ["foo"; "bar"] ∧ NoDup ["bar"; "foo"]
  ∧ list_to_set ["foo"; "bar"] =@{gset string} list_to_set ["bar"; "foo"]
  ∧ @permute flat_util (sorted ["foo"; "bar"]) false
    = @permute flat_util (sorted ["bar"; "foo"]) false.
Proof.
  assert (NoDup ["foo"; "bar"]) as H1 by (apply (bool_decide_unpack _); vm_compute; exact I).
  assert (NoDup ["bar"; "foo"]) as H2 by (apply (bool_decide_unpack _); vm_compute; exact I).
  assert (list_to_set ["foo"; "bar"] =@{gset string} list_to_set ["bar"; "foo"])
    as H3 by (vm_compute; reflexivity).
  split_and!; [exact H1|exact H2|exact H3|].
  exact (@C5_placement_paths_deterministic flat_util _ _ false H1 H2 H3).
Defined.

(** ** The tag handlers *)

Lemma remove_add_difference (tag_list : list string) (tag_set : gset string) :
  remove_handler tag_list (add_handler tag_list tag_set)
  = tag_set ∖ list_to_set tag_list.
Proof. unfold remove_handler, add_handler. set_solver. Qed.

(** C6 (as amended): [add] with a tag list and then [remove] with the same
    list leaves the tags the file had that are not in the list; the
    original tag set comes back exactly when none of the listed tags was on
    the file before. *)
Theorem C6_add_then_remove (tag_list : list string) (tag_set : gset string) :
  remove_handler tag_list (add_handler tag_list tag_set)
  = tag_set ∖ list_to_set tag_list
  ∧ (remove_handler tag_list (add_handler tag_list tag_set) = tag_set
     ↔ ∀ tag, tag ∈ tag_list → tag ∉ tag_set).
Proof.
  rewrite remove_add_difference. split; [done|]. split.
  - intros Heq tag Hin Htag. rewrite <- Heq in Htag. set_solver.
  - intros Hnew. apply set_eq. intros tag. set_solver.
Qed.

Lemma C6_add_then_remove_witness :
  remove_handler (Str.split "," "b,c") (add_handler (Str.split "," "b,c") {["a"]})
  = ({["a"]} : gset string).
Proof.
  apply (proj2 (C6_add_then_remove (Str.split "," "b,c") {["a"]})).
  intros tag Hin. cbn in Hin. set_solver.
Defined.

(** C6 as stated fails when a listed tag is already on the file:
    [add a] and then [remove a] on a file tagged [a] leaves no tag. *)
Lemma C6_counterexample :
  remove_handler (Str.split "," "a") (add_handler (Str.split "," "a") {["a"]})
  ≠ ({["a"]} : gset string).
Proof.
  intros Heq.
  assert ("a" ∈ remove_handler (Str.split "," "a")
                  (add_handler (Str.split "," "a") {["a"]})) as Hin.
  { rewrite Heq. set_solver. }
  rewrite remove_add_difference in Hin. cbn in Hin. set_solver.
Qed.

(** ** Reasoning about runs *)

Section runs.
Context {FS : Type}.
Implicit Types (w : world FS) (lines : list string).

Lemma bind_run {A B} (m : M FS A) (f : A → M FS B) w :
  (m ≫= f) w = match m w with
               | (Ok a, w') => f a w'
               | (Raise e, w') => (Raise e, w')
               end.
Proof. done. Qed.

Lemma emits_ret {A} (a : A) : emits (mret a : M FS A) a [].
Proof. intros [fs out]. cbn. by rewrite app_nil_r. Qed.

Lemma emits_echo line : emits (echo line : M FS ()) () [line].
Proof. by intros w. Qed.

Lemma emits_bind {A B} (m : M FS A) (f : A → M FS B) a b lines1 lines2 :
  emits m a lines1 → emits (f a) b lines2 →
  emits (m ≫= f) b (lines1 ++ lines2).
Proof.
  intros Hm Hf w. rewrite bind_run, Hm, Hf. cbn.
  by rewrite (assoc_L (++)).
Qed.

Lemma emits_when (b : bool) (m : M FS ()) lines :
  emits m () lines → emits (when b m) () (if b then lines else []).
Proof. destruct b; [done|]. intros _. apply emits_ret. Qed.

Lemma emits_for_each {A} (xs : list A) (body : A → M FS ())
    (lines_of : A → list string) :
  (∀ x, emits (body x) () (lines_of x)) →
  emits (for_each xs body) () (xs ≫= lines_of).
Proof.
  intros Hbody. induction xs as [|x xs IH]; [apply emits_ret|].
  cbn [for_each mbind list_bind]. by apply emits_bind with (a := ()).
Qed.

Lemma emits_for_fold {A B} (xs : list A) (body : B → A → M FS B)
    (step : B → A → B) (lines_of : A → list string) acc :
  (∀ acc x, emits (body acc x) (step acc x) (lines_of x)) →
  emits (for_fold xs body acc) (foldl step acc xs) (xs ≫= lines_of).
Proof.
  intros Hbody. revert acc.
  induction xs as [|x xs IH]; intros acc; [apply emits_ret|].
  cbn [for_fold foldl mbind list_bind]. by eapply emits_bind.
Qed.







End runs.

(** ** The key loop of [_index] *)

Section key_loop.
Context {FS : Type} `{!OS FS, !Discovery FS, !Util}.
Implicit Types (w : world FS) (index : gmap string (list File)).

Lemma length_key_links abspath index key :
  length (key_links abspath index key) = length (default [] (index !! key)).
Proof.
  unfold key_links. case_bool_decide as Hlen.
  - by destruct (default [] (index !! key)).
  - by rewrite length_fmap.
Qed.

Lemma bind_key_lines verbose abspath index (keys : list string) :
  keys ≫= key_lines verbose abspath index =
  if verbose
  then (λ l, link_line l.1 l.2) <$> (keys ≫= key_links abspath index)
  else [].
Proof.
  induction keys as [|key keys IH]; [by destruct verbose|].
  cbn [mbind list_bind]. rewrite IH. unfold key_lines.
  destruct verbose; [|done]. by rewrite fmap_app.
Qed.

Lemma count_key_links abspath index (keys : list string) count :
  foldl (λ count key, count + length (default [] (index !! key))) count keys
  = count + length (keys ≫= key_links abspath index).
Proof.
  revert count. induction keys as [|key keys IH]; intros count; cbn; [lia|].
  rewrite IH, length_app, length_key_links. lia.
Qed.


Lemma emits_place verbose src dst :
  emits (Tag.place true verbose src dst : M FS ()) ()
        (if verbose then [link_line dst src] else []).
Proof.
  unfold Tag.place.
  rewrite <- (app_nil_r (if verbose then _ else _)).
  apply emits_bind with (a := ()).
  - apply emits_when, emits_echo.
  - apply emits_ret.
Qed.

Lemma emits_show verbose src out_path :
  emits (Src.show verbose src out_path : M FS ()) ()
        (if verbose then [link_line out_path src] else []).
Proof. apply emits_when, emits_echo. Qed.

(** What the three renderings of the loop body have in common: the lines
    of a key are those of its links, whichever way a link is handled. *)
Lemma key_lines_single verbose abspath index key file :
  default [] (index !! key) = [file] →
  key_lines verbose abspath index key =
  if verbose
  then [link_line (os_path_join (os_path_split key).1 [filename file])
                  (original file)]
  else [].
Proof.
  intros Hfiles. unfold key_lines, key_links. rewrite Hfiles.
  by destruct verbose.
Qed.

Lemma key_lines_shared verbose abspath index key :
  length (default [] (index !! key)) ≠ 1 →
  key_lines verbose abspath index key =
  default [] (index !! key) ≫= λ file,
    if verbose
    then [link_line (os_path_join (os_path_split key).1
                                  [disambiguated abspath file])
                    (original file)]
    else [].
Proof.
  intros Hlen. unfold key_lines, key_links.
  rewrite bool_decide_eq_false_2 by done. clear Hlen.
  generalize (default [] (index !! key)). intros files.
  destruct verbose.
  - induction files as [|file files IH]; [done|].
    cbn [mbind list_bind fmap list_fmap]. by rewrite <- IH.
  - induction files as [|file files IH]; [done|]. by cbn.
Qed.


Lemma Tag_index_key_emits verbose abspath index count key :
  emits (Tag.index_key true verbose abspath index count key : M FS nat)
        (count + length (default [] (index !! key)))
        (key_lines verbose abspath index key).
Proof.
  unfold Tag.index_key.
  replace (key_lines verbose abspath index key)
    with ([] ++ key_lines verbose abspath index key ++ [])
    by (by rewrite app_nil_r).
  apply emits_bind with (a := ()); [apply emits_ret|].
  apply emits_bind with (a := ()); [|apply emits_ret].
  case_bool_decide as Hlen.
  - destruct (default [] (index !! key)) as [|file [|??]] eqn:Hfiles; try done.
    rewrite (key_lines_single _ _ _ _ file) by done. apply emits_place.
  - rewrite key_lines_shared by done.
    apply emits_for_each. intros file. apply emits_place.
Qed.

Lemma Src_index_key_emits verbose abspath index count key :
  emits (Src.index_key verbose abspath index count key : M FS nat)
        (count + length (default [] (index !! key)))
        (key_lines verbose abspath index key).
Proof.
  unfold Src.index_key.
  rewrite <- (app_nil_r (key_lines _ _ _ _)).
  apply emits_bind with (a := ()); [|apply emits_ret].
  case_bool_decide as Hlen.
  - destruct (default [] (index !! key)) as [|file [|??]] eqn:Hfiles; try done.
    rewrite (key_lines_single _ _ _ _ file) by done. apply emits_show.
  - rewrite key_lines_shared by done.
    apply emits_for_each. intros file. apply emits_show.
Qed.

Lemma emits_report_count verbose debug count :
  emits (report_count verbose debug count : M FS ()) ()
        (if verbose && bool_decide (0 < count)
         then [EmptyString; count_line count debug] else []).
Proof.
  apply emits_when. apply emits_bind with (a := ()) (lines1 := [EmptyString]);
    apply emits_echo.
Qed.

(** The lines of a whole run: the links, then the count. *)
Lemma run_lines verbose debug abspath index :
  (sorted_keys index ≫= key_lines verbose abspath index)
  ++ (if verbose && bool_decide (0 < 0 + length (planned_links abspath index))
      then [EmptyString;
            count_line (0 + length (planned_links abspath index)) debug]
      else [])
  = if verbose then report debug (planned_links abspath index) else [].
Proof.
  rewrite bind_key_lines. destruct verbose; [|done]. done.
Qed.

End key_loop.

(** ** Whole runs of [index] *)

Section index_runs.
Context {FS : Type} `{!OS FS, !Discovery FS, !Util}.
Implicit Types (w : world FS).

Lemma output_has_content_run output w :
  Tag.output_has_content output w =
  if os_path_exists (w_fs w) output then
    match os_listdir (w_fs w) output with
    | Some entries => (Ok (bool_decide (entries ≠ [])), w)
    | None => (Raise OSError, w)
    end
  else (Ok false, w).
Proof.
  unfold Tag.output_has_content. rewrite bind_run. cbn.
  destruct (os_path_exists (w_fs w) output); [|done].
  rewrite bind_run. unfold try_read.
  by destruct (os_listdir (w_fs w) output).
Qed.

(** A run is decided by the check of [output]: it stops there, or goes on
    to the two loops. *)
Lemma Tag_index_run all debug recursive tree verbose path output w :
  Tag._index all debug recursive tree verbose path output w =
  let abspath := os_path_abspath (w_fs w) path in
  let index :=
    build_index output tree
      (tagged (find_files (w_fs w) abspath recursive all)) in
  match Tag.output_has_content output w with
  | (Ok true, _) => (Raise (ClickException (Tag.conflict_message output)), w)
  | (Ok false, _) =>
      (for_fold (sorted_keys index)
                (Tag.index_key debug verbose abspath index) 0
       ≫= report_count verbose debug) w
  | (Raise e, _) => (Raise e, w)
  end.
Proof.
  unfold Tag._index. rewrite bind_run. cbn [ask]. rewrite bind_run.
  rewrite output_has_content_run.
  destruct (os_path_exists (w_fs w) output); [|done].
  destruct (os_listdir (w_fs w) output) as [entries|]; [|done].
  by case_bool_decide.
Qed.

(** In a dry run the loops only print. *)
Lemma Tag_dry_loops_emit verbose abspath (index : gmap string (list File)) :
  emits (for_fold (sorted_keys index)
                  (Tag.index_key true verbose abspath index) 0
         ≫= report_count verbose true : M FS ()) ()
        (if verbose then report true (planned_links abspath index) else []).
Proof.
  rewrite <- run_lines.
  eapply emits_bind; [|apply emits_report_count].
  unfold planned_links. rewrite <- (count_key_links abspath).
  apply emits_for_fold with
    (step := λ count key, count + length (default [] (index !! key))).
  intros count key. apply Tag_index_key_emits.
Qed.


(** The older copy always runs to its end, and only prints. *)
Lemma Src_index_run all debug recursive verbose path output w :
  let abspath := os_path_abspath (w_fs w) path in
  let index :=
    build_index output false
      (tagged (find_files (w_fs w) abspath recursive all)) in
  Src._index all debug recursive verbose path output w =
  (Ok (), World (w_fs w)
            (w_stdout w
             ++ if verbose then report debug (planned_links abspath index)
                else [])).
Proof.
  intros abspath index. unfold Src._index.
  rewrite bind_run. cbn [ask]. rewrite bind_run. cbn [ask].
  fold abspath. fold index.
  pose proof (run_lines verbose debug abspath index) as <-.
  eapply emits_bind; [|apply emits_report_count].
  unfold planned_links. rewrite <- (count_key_links abspath).
  apply emits_for_fold with
    (step := λ count key, count + length (default [] (index !! key))).
  intros count key. apply Src_index_key_emits.
Qed.

Lemma sorted_keys_ascending (index : gmap string (list File)) :
  StronglySorted String.le (sorted_keys index)
  ∧ NoDup (sorted_keys index)
  ∧ ∀ key, key ∈ sorted_keys index ↔ is_Some (index !! key).
Proof.
  unfold sorted_keys. split_and!.
  - apply sorted_StronglySorted.
  - rewrite sorted_Permutation. apply NoDup_elements.
  - intros key. by rewrite sorted_Permutation, elem_of_elements, elem_of_dom.
Qed.

(** C2: when [OUTPUT] exists and has at least one entry, [index] raises the
    error about the index directory and leaves the filesystem and the
    console as they were: no directory and no link is made. *)
Theorem C2_nonempty_output_rejected all debug recursive tree verbose
    path output entry entries w :
  os_path_exists (w_fs w) output = true →
  os_listdir (w_fs w) output = Some (entry :: entries) →
  Tag._index all debug recursive tree verbose path output w
  = (Raise (ClickException (Tag.conflict_message output)), w).
Proof.
  intros Hexists Hlist.
  rewrite Tag_index_run, output_has_content_run, Hexists, Hlist. cbn zeta.
  by rewrite bool_decide_eq_true_2.
Qed.


(** C8: with [--debug] the filesystem after the run is the filesystem
    before it, and unless the run is stopped by the check of [OUTPUT] it
    returns having computed every link: with [--verbose] it prints them
    all, and their count. *)
Theorem C8_debug_changes_nothing all recursive tree verbose path output w :
  let abspath := os_path_abspath (w_fs w) path in
  let index :=
    build_index output tree
      (tagged (find_files (w_fs w) abspath recursive all)) in
  w_fs (Tag._index all true recursive tree verbose path output w).2 = w_fs w
  ∧ (os_path_exists (w_fs w) output = false
     ∨ os_listdir (w_fs w) output = Some [] →
     Tag._index all true recursive tree verbose path output w
     = (Ok (), World (w_fs w)
                 (w_stdout w
                  ++ if verbose
                     then report true (planned_links abspath index)
                     else []))).
Proof.
  intros abspath index.
  rewrite Tag_index_run, output_has_content_run. cbn zeta.
  fold abspath. fold index.
  pose proof (Tag_dry_loops_emit verbose abspath index w) as Hloops.
  destruct (os_path_exists (w_fs w) output).
  - destruct (os_listdir (w_fs w) output) as [[|entry entries]|].
    + rewrite bool_decide_eq_false_2 by naive_solver.
      rewrite Hloops. split; [done|]. by intros _.
    + rewrite bool_decide_eq_true_2 by done. split; [done|]. by intros [|].
    + split; [done|]. by intros [|].
  - rewrite Hloops. split; [done|]. by intros _.
Qed.

(** C10: the [index] command of [src/src/cli.py] always returns, whatever
    [OUTPUT] holds and whether or not [--debug] is given, and leaves the
    filesystem as it was: all it does is print, with [--verbose], the links
    and their count. *)
Theorem C10_older_index_only_prints all debug recursive verbose path output w :
  (Src._index all debug recursive verbose path output w).1 = Ok ()
  ∧ w_fs (Src._index all debug recursive verbose path output w).2 = w_fs w
  ∧ w_stdout (Src._index all debug recursive verbose path output w).2
    = w_stdout w
      ++ if verbose
         then report debug
                (planned_links (os_path_abspath (w_fs w) path)
                   (build_index output false
                      (tagged (find_files (w_fs w)
                                 (os_path_abspath (w_fs w) path)
                                 recursive all))))
         else [].
Proof. by rewrite Src_index_run. Qed.

End index_runs.

(** *** The runs of the examples *)

Lemma C2_nonempty_output_rejected_witness :
  let w := World (JournalFs {["out" := ["stale"]]} [x_foo] []) [] in
  os_path_exists (w_fs w) "out" = true
  ∧ os_listdir (w_fs w) "out" = Some ["stale"]
  ∧ @Tag._index _ _ _ flat_util false false false false true "/r" "out" w
    = (Raise (ClickException (Tag.conflict_message "out")), w).
Proof.
  intros w.
  assert (os_path_exists (w_fs w) "out" = true) as Hexists
    by (vm_compute; reflexivity).
  assert (os_listdir (w_fs w) "out" = Some ["stale"]) as Hlist
    by (vm_compute; reflexivity).
  split_and!; [exact Hexists|exact Hlist|].
  exact (@C2_nonempty_output_rejected _ _ _ flat_util false false false false
           true "/r" "out" "stale" [] w Hexists Hlist).
Defined.



Lemma C8_debug_changes_nothing_witness :
  let w := fresh_world [a_x_foo; b_x_foo] in
  let index := @build_index flat_util "out" false (tagged [a_x_foo; b_x_foo]) in
  (os_path_exists (w_fs w) "out" = false ∨ os_listdir (w_fs w) "out" = Some [])
  ∧ @Tag._index _ _ _ flat_util false true true false true "/r" "out" w
    = (Ok (), World (w_fs w)
                (w_stdout w ++ report true (planned_links "/r" index))).
Proof.
  intros w index.
  assert (os_path_exists (w_fs w) "out" = false
          ∨ os_listdir (w_fs w) "out" = Some []) as Hfree
    by (left; vm_compute; reflexivity).
  split; [exact Hfree|].
  exact (proj2 (@C8_debug_changes_nothing _ _ _ flat_util false true false
                  true "/r" "out" w) Hfree).
Defined.

(** The older copy runs where the newer one refuses. *)
Example Src_index_accepts_nonempty_output :
  let w := World (JournalFs {["out" := ["stale"]]} [x_foo] []) [] in
  @Src._index _ _ _ flat_util false false false true "/r" "out" w
  = (Ok (), World (w_fs w)
              ["out/foo/x.txt -> /r/x{foo}.txt"; EmptyString;
               "1 files indexed."]).
Proof. vm_compute. reflexivity. Qed.

(** The links printed by a dry run are the links made by a real run. *)
Example dry_run_plans_the_links :
  let w := fresh_world [a_x_foo; b_x_foo; x_foo] in
  let index :=
    @build_index flat_util "out" false (tagged [a_x_foo; b_x_foo; x_foo]) in
  planned_links "/r" index
  = [("out/foo/x-a.txt", "/r/a/x{foo}.txt");
     ("out/foo/x-b.txt", "/r/b/x{foo}.txt");
     ("out/foo/x.txt", "/r/x{foo}.txt")]
  ∧ journal (w_fs (@Tag._index _ _ _ flat_util false true true false true
                     "/r" "out" w).2) = []
  ∧ journal (w_fs (@Tag._index _ _ _ flat_util false false true false true
                     "/r" "out" w).2)
    = [Makedirs "out/foo";
       Symlink "/r/a/x{foo}.txt" "out/foo/x-a.txt";
       Symlink "/r/b/x{foo}.txt" "out/foo/x-b.txt";
       Symlink "/r/x{foo}.txt" "out/foo/x.txt"].
Proof. vm_compute. split_and!; reflexivity. Qed.

(** ** The renaming commands *)

Section renaming.
Context {FS : Type} `{!OS FS}.
Implicit Types (w : world FS).

Lemma rename_handler_absent old_tag new_tag (tag_set : gset string) :
  old_tag ∉ tag_set → rename_handler old_tag new_tag tag_set = tag_set.
Proof. intros Hold. unfold rename_handler. by case_decide. Qed.

(** A file whose name already is the serialized one is left alone. *)
Lemma rename_file_unchanged verbose debug tag_handler file w :
  renamed file (tag_handler (tags file)) = original file →
  rename_file verbose debug tag_handler file w = (Ok (), w).
Proof.
  intros Hsame. unfold rename_file.
  by rewrite bool_decide_eq_false_2 by (by intros []).
Qed.

(** The engine sees a handler only through what it does to the tags of
    the file at hand. *)
Lemma rename_file_handler verbose debug handler1 handler2 file :
  handler1 (tags file) = handler2 (tags file) →
  rename_file verbose debug handler1 file
  = (rename_file verbose debug handler2 file : M FS ()).
Proof. intros Heq. unfold rename_file. by rewrite Heq. Qed.

(** C9 (as amended): on a file whose tag set lacks [old_tag], [rename
    old_tag new_tag] leaves the tag set as it is and does to the file what
    [sort] does: when the tag blocks of the name are in ascending order
    already, the file is not renamed and nothing is printed. *)
Theorem C9_rename_absent_tag verbose debug old_tag new_tag file w :
  old_tag ∉ tags file →
  rename_handler old_tag new_tag (tags file) = tags file
  ∧ _rename verbose debug old_tag new_tag [file] w
    = _sort verbose debug [file] w
  ∧ (renamed file (tags file) = original file →
     _rename verbose debug old_tag new_tag [file] w = (Ok (), w)).
Proof.
  intros Hold. split; [by apply rename_handler_absent|].
  unfold _rename, _sort, rename_files. cbn [for_each].
  rewrite (rename_file_handler _ _ _ sort_handler)
    by (by apply rename_handler_absent).
  split; [done|]. intros Hsame.
  by rewrite bind_run, rename_file_unchanged.
Qed.

End renaming.

Lemma C9_rename_absent_tag_witness :
  ("c" ∉ tags x_a_b)
  ∧ renamed x_a_b (tags x_a_b) = original x_a_b
  ∧ _rename true false "c" "d" [x_a_b] (fresh_world [])
    = (Ok (), fresh_world []).
Proof.
  assert ("c" ∉ tags x_a_b) as Hold
    by (apply (bool_decide_unpack _); vm_compute; exact I).
  assert (renamed x_a_b (tags x_a_b) = original x_a_b) as Hsame
    by (vm_compute; reflexivity).
  split_and!; [exact Hold|exact Hsame|].
  exact (proj2 (proj2 (C9_rename_absent_tag true false "c" "d" x_a_b
                         (fresh_world []) Hold)) Hsame).
Defined.

(** C9 as stated fails for a file whose tag blocks are not in ascending
    order: [rename c d] on [x{b}{a}.txt], which has no tag [c], renames the
    file to [x{a}{b}.txt] and prints the two paths. *)
Lemma C9_counterexample :
  let run := _rename true false "c" "d" [x_b_a] (fresh_world []) in
  ("c" ∉ tags x_b_a)
  ∧ journal (w_fs run.2) = [Rename "/r/x{b}{a}.txt" "/r/x{a}{b}.txt"]
  ∧ w_stdout run.2 = ["/r/x{b}{a}.txt -> /r/x{a}{b}.txt"].
Proof.
  split; [apply (bool_decide_unpack _); vm_compute; exact I|].
  vm_compute. split; reflexivity.
Qed.

(** ** Link names *)

Section strings.
Implicit Types (c : ascii) (s r : string).

Lemma drop_past_prefix s c r :
  Str.drop (String.length s + 1) (s +:+ String c r) = r.
Proof. induction s as [|x s IH]; [done|]. apply IH. Qed.

Lemma drop_past_end s : Str.drop (String.length s + 1) s = EmptyString.
Proof. induction s as [|x s IH]; [done|]. apply IH. Qed.

Lemma split_not_nil c s : Str.split c s ≠ [].
Proof.
  destruct s as [|x s]; [done|]. cbn [Str.split].
  case_decide; [done|]. by destruct (Str.split c s).
Qed.

(** A string without [c] followed by [c] is the first piece. *)
Lemma split_first_piece c s r :
  Str.split c s = [s] →
  Str.split c (s +:+ String c r) = s :: Str.split c r.
Proof.
  induction s as [|x s IH]; intros Hs.
  - simpl. by rewrite decide_True.
  - simpl in Hs |- *. case_decide as Hx; [done|].
    pose proof (split_not_nil c s) as Hnil.
    destruct (Str.split c s) as [|piece rest] eqn:Hsplit; [done|].
    simplify_eq. by rewrite IH.
Qed.

Lemma split_join c (pieces : list string) :
  pieces ≠ [] →
  Forall (λ s, Str.split c s = [s]) pieces →
  Str.split c (Str.join (String c EmptyString) pieces) = pieces.
Proof.
  intros Hnil Hpieces. induction Hpieces as [|s pieces Hs _ IH]; [done|].
  destruct pieces as [|s' pieces]; [done|].
  change (Str.join (String c EmptyString) (s :: s' :: pieces))
    with (s +:+ String c (Str.join (String c EmptyString) (s' :: pieces))).
  rewrite split_first_piece by done. f_equal. by apply IH.
Qed.

End strings.

Section link_names.
Implicit Types (index : gmap string (list File)).

(** A key with one file: the link has the file's plain name. *)
Lemma single_occupant_link abspath index key file :
  index !! key = Some [file] →
  key_links abspath index key
  = [(os_path_join (os_path_split key).1 [filename file], original file)].
Proof. intros Hkey. unfold key_links. by rewrite Hkey. Qed.

(** A key with several files: every link has the disambiguated name. *)
Lemma shared_key_links abspath index key files :
  index !! key = Some files → length files ≠ 1 →
  key_links abspath index key
  = (λ file, (os_path_join (os_path_split key).1
                [disambiguated abspath file], original file)) <$> files.
Proof.
  intros Hkey Hlen. unfold key_links. rewrite Hkey. cbn [default].
  by rewrite bool_decide_eq_false_2.
Qed.

(** A file directly in the search root keeps its plain name. *)
Lemma disambiguated_in_search_root abspath file :
  dir file = abspath → disambiguated abspath file = filename file.
Proof.
  intros Hdir. unfold disambiguated. by rewrite Hdir, drop_past_end.
Qed.

(** A file in a directory below a search root that does not end in a
    slash: the segments from the root to the directory, joined by hyphens,
    go before the extension. *)
Lemma disambiguated_below_search_root abspath file segments :
  segments ≠ [] →
  Forall (λ s, Str.split os_sep s = [s]) segments →
  Str.join "/" segments ≠ EmptyString →
  dir file = abspath +:+ "/" +:+ Str.join "/" segments →
  disambiguated abspath file
  = (os_path_splitext (filename file)).1 +:+ "-"
    +:+ Str.join "-" segments +:+ (os_path_splitext (filename file)).2.
Proof.
  intros Hnil Hsegs Hrel Hdir. unfold disambiguated.
  rewrite Hdir.
  change (abspath +:+ "/" +:+ Str.join "/" segments)
    with (abspath +:+ String os_sep (Str.join "/" segments)).
  rewrite drop_past_prefix.
  destruct (Str.join "/" segments) as [|x rel] eqn:Hjoin; [done|].
  cbn [Str.truthy]. rewrite <- Hjoin.
  rewrite (split_join os_sep) by done.
  by destruct (os_path_splitext (filename file)).
Qed.

End link_names.

(** The example of the spec: [a/x{foo}.txt] and [b/x{foo}.txt] below the
    search root share a key and get the links [x-a.txt] and [x-b.txt]. *)
Example links_of_a_and_b :
  let index := @build_index flat_util "out" false (tagged [a_x_foo; b_x_foo]) in
  index !! "out/foo/x{foo}.txt" = Some [a_x_foo; b_x_foo]
  ∧ planned_links "/r" index
    = [("out/foo/x-a.txt", "/r/a/x{foo}.txt");
       ("out/foo/x-b.txt", "/r/b/x{foo}.txt")].
Proof. vm_compute. split; reflexivity. Qed.

(** C3 fails when the search root is [/]: [_index] drops [len(abspath)+1]
    characters from the directory, one more than the root has. The files
    [/a/x{foo}.txt] and [/b/x{foo}.txt] share a key and both get the plain
    name [x.txt], so that the second link cannot be made; the file
    [/ab/x{foo}.txt] would get [x-b.txt]. *)
Theorem C3_search_root_slash :
  let found := [slash_a_x_foo; slash_b_x_foo] in
  let index := @build_index flat_util "out" false (tagged found) in
  dir slash_a_x_foo = os_path_join "/" ["a"]
  ∧ dir slash_b_x_foo = os_path_join "/" ["b"]
  ∧ index !! "out/foo/x{foo}.txt" = Some found
  ∧ planned_links "/" index
    = [("out/foo/x.txt", "/a/x{foo}.txt"); ("out/foo/x.txt", "/b/x{foo}.txt")]
  ∧ @Tag._index _ _ _ flat_util false false true false true "/" "out"
      (fresh_world found)
    = (Raise OSError,
       World (JournalFs ∅ found
                [Makedirs "out/foo"; Symlink "/a/x{foo}.txt" "out/foo/x.txt"])
             ["out/foo/x.txt -> /a/x{foo}.txt";
              "out/foo/x.txt -> /b/x{foo}.txt"])
  ∧ disambiguated "/" ab_x_foo = "x-b.txt".
Proof. vm_compute. split_and!; reflexivity. Qed.

(** ** Real runs on the journal filesystem *)

Section journal_runs.
Context `{!Util}.
Implicit Types (w : world journal_fs) (ops : list fs_op).

Lemma logs_emits {A} (m : M journal_fs A) a lines : emits m a lines → logs m [].
Proof.
  intros Hm w a' w' Hrun. rewrite Hm in Hrun. simplify_eq. cbn.
  by rewrite app_nil_r.
Qed.

Lemma logs_bind {A B} (m : M journal_fs A) (f : A → M journal_fs B) ops1 ops2 :
  logs m ops1 → (∀ a, logs (f a) ops2) → logs (m ≫= f) (ops1 ++ ops2).
Proof.
  intros Hm Hf w b w' Hrun. rewrite bind_run in Hrun.
  destruct (m w) as [[a|e] w1] eqn:Hmw; [|done].
  apply Hm in Hmw. apply Hf in Hrun. by rewrite Hrun, Hmw, (assoc_L (++)).
Qed.

Lemma logs_makedirs path :
  logs (try_write (λ fs, os_makedirs fs path)) [Makedirs path].
Proof.
  intros w [] w' Hrun. unfold try_write in Hrun. cbn in Hrun. by simplify_eq.
Qed.

Lemma logs_symlink src dst :
  logs (try_write (λ fs, os_symlink fs src dst)) [Symlink src dst].
Proof.
  intros w [] w' Hrun. unfold try_write in Hrun. cbn in Hrun.
  destruct (linked (w_fs w) dst); by simplify_eq.
Qed.

Lemma logs_for_each {A} (xs : list A) (body : A → M journal_fs ())
    (ops_of : A → list fs_op) :
  (∀ x, logs (body x) (ops_of x)) → logs (for_each xs body) (xs ≫= ops_of).
Proof.
  intros Hbody. induction xs as [|x xs IH].
  - apply (logs_emits _ () []), emits_ret.
  - cbn [for_each mbind list_bind]. by apply logs_bind.
Qed.

Lemma logs_for_fold {A B} (xs : list A) (body : B → A → M journal_fs B)
    (ops_of : A → list fs_op) acc :
  (∀ acc x, logs (body acc x) (ops_of x)) →
  logs (for_fold xs body acc) (xs ≫= ops_of).
Proof.
  intros Hbody. revert acc. induction xs as [|x xs IH]; intros acc.
  - apply (logs_emits _ acc []), emits_ret.
  - cbn [for_fold mbind list_bind]. by apply logs_bind.
Qed.

Lemma logs_place verbose src dst :
  logs (Tag.place false verbose src dst) [Symlink src dst].
Proof.
  unfold Tag.place. apply (logs_bind _ _ []).
  - eapply logs_emits. apply emits_when, emits_echo.
  - intros _. apply logs_symlink.
Qed.

Lemma Tag_index_key_logs verbose abspath (index : gmap string (list File))
    count key :
  logs (Tag.index_key false verbose abspath index count key)
       (key_ops abspath index key).
Proof.
  unfold Tag.index_key, key_ops, key_links.
  apply (logs_bind _ _ [_]); [apply logs_makedirs|]. intros _.
  rewrite <- (app_nil_r (_ <$> _)).
  apply logs_bind; [|intros _; eapply logs_emits, emits_ret].
  case_bool_decide as Hlen.
  - destruct (default [] (index !! key)) as [|file [|??]]; try done.
    apply logs_place.
  - generalize (default [] (index !! key)). intros files.
    replace (_ <$> (_ <$> files))
      with (files ≫= λ file,
              [Symlink (original file)
                 (os_path_join (os_path_split key).1
                    [disambiguated abspath file])]).
    + apply logs_for_each. intros file. apply logs_place.
    + induction files as [|file files IH]; [done|].
      cbn [mbind list_bind fmap list_fmap]. by rewrite IH.
Qed.

(** X15: a real run that returns has made, key after key in ascending
    order, the parent directory and then exactly the links that the dry
    run prints: the calls it has journalled are [os.makedirs] for the
    parent of each key followed by [os.symlink] for each of its links. *)
Lemma real_run_makes_the_planned_links all recursive tree verbose path output
    w w' :
  Tag._index all false recursive tree verbose path output w = (Ok (), w') →
  let abspath := os_path_abspath (w_fs w) path in
  let index :=
    build_index output tree
      (tagged (find_files (w_fs w) abspath recursive all)) in
  journal (w_fs w')
  = journal (w_fs w) ++ (sorted_keys index ≫= key_ops abspath index).
Proof.
  intros Hrun abspath index. rewrite Tag_index_run in Hrun. cbn zeta in Hrun.
  destruct (Tag.output_has_content output w) as [[[]|e] w1]; try done.
  revert Hrun. rewrite <- (app_nil_r (_ ≫= _)). apply logs_bind.
  - apply logs_for_fold. intros count key. apply Tag_index_key_logs.
  - intros count. apply (logs_emits _ _ _ (emits_report_count _ _ _)).
Qed.

End journal_runs.

(** ** [list]: counting tags *)

Section tag_counting.
Implicit Types (counts : gmap string nat) (found : list File).

Lemma count_tags_lookup (tag_list : list string) counts tag :
  NoDup tag_list →
  foldl count_tag counts tag_list !! tag =
  if decide (tag ∈ tag_list) then Some (default 0 (counts !! tag) + 1)
  else counts !! tag.
Proof.
  intros Hnd. revert counts.
  induction Hnd as [|t tag_list Ht Hnd IH]; intros counts.
  - by rewrite decide_False by apply not_elem_of_nil.
  - cbn [foldl]. rewrite IH. unfold count_tag.
    destruct (decide (tag = t)) as [->|Hne].
    + rewrite decide_False by done.
      rewrite decide_True by apply list_elem_of_here.
      rewrite lookup_insert_eq. by destruct (counts !! t).
    + rewrite lookup_insert_ne by done.
      destruct (decide (tag ∈ tag_list)) as [Hin|Hnin].
      * by rewrite decide_True by by apply list_elem_of_further.
      * rewrite decide_False; [done|].
        by intros [?|?]%elem_of_cons.
Qed.

Lemma count_file_lookup counts file tag :
  count_file counts file !! tag =
  if decide (tag ∈ tags file) then Some (default 0 (counts !! tag) + 1)
  else counts !! tag.
Proof.
  unfold count_file. rewrite count_tags_lookup by apply NoDup_elements.
  destruct (decide (tag ∈ tags file)) as [Hin|Hnin].
  - by rewrite decide_True by by apply elem_of_elements.
  - by rewrite decide_False by by rewrite elem_of_elements.
Qed.

Lemma count_files_lookup counts found tag :
  foldl count_file counts found !! tag =
  match length (with_tag tag found) with
  | 0 => counts !! tag
  | S n => Some (default 0 (counts !! tag) + S n)
  end.
Proof.
  revert counts. induction found as [|file found IH]; intros counts; [done|].
  cbn [foldl]. rewrite IH, count_file_lookup. unfold with_tag.
  rewrite filter_cons. destruct (decide (tag ∈ tags file)) as [Hin|Hnin].
  - cbn [length default]. unfold id.
    destruct (length (filter _ found)); f_equal; lia.
  - done.
Qed.

Lemma tag_counts_lookup found tag :
  tag_counts found !! tag =
  match length (with_tag tag found) with
  | 0 => None
  | n => Some n
  end.
Proof.
  unfold tag_counts. rewrite count_files_lookup, lookup_empty.
  by destruct (length (with_tag tag found)).
Qed.

(** X1: after discovery the dictionary of [list] maps every tag that some
    file carries to the number of files that carry it, and has no entry for
    any other tag. *)
Theorem tag_counts_are_file_counts found tag :
  tag_counts found !! tag =
  match length (with_tag tag found) with
  | 0 => None
  | n => Some n
  end.
Proof. apply tag_counts_lookup. Qed.

Lemma tag_counts_default found tag :
  default 0 (tag_counts found !! tag) = length (with_tag tag found).
Proof.
  rewrite tag_counts_lookup. by destruct (length (with_tag tag found)).
Qed.

End tag_counting.

Section list_and_find.
Implicit Types (found : list File).

Lemma elem_of_with_tag tag found file :
  file ∈ with_tag tag found ↔ file ∈ found ∧ tag ∈ tags file.
Proof. unfold with_tag. rewrite list_elem_of_filter. naive_solver. Qed.

Lemma counted_tags found tag :
  tag ∈ sorted (elements (dom (tag_counts found))) ↔
  ∃ file, file ∈ found ∧ tag ∈ tags file.
Proof.
  rewrite sorted_Permutation, elem_of_elements, elem_of_dom.
  rewrite tag_counts_lookup.
  destruct (with_tag tag found) as [|file files] eqn:Hfiles; cbn [length].
  - split; [by intros [??]|]. intros (file & Hfile).
    apply elem_of_with_tag in Hfile. rewrite Hfiles in Hfile.
    by apply not_elem_of_nil in Hfile.
  - split; [|by eauto]. intros _. exists file.
    apply elem_of_with_tag. rewrite Hfiles. apply list_elem_of_here.
Qed.

(** X2: [list] puts out the tags that occur on the files found, each once
    and in ascending order; with [--count] every tag is followed by a colon
    and the number of files that carry it. *)
Theorem list_lines_sorted_distinct_tags found :
  let tag_list := list_lines false (tag_counts found) in
  StronglySorted String.le tag_list
  ∧ NoDup tag_list
  ∧ (∀ tag, tag ∈ tag_list ↔ ∃ file, file ∈ found ∧ tag ∈ tags file)
  ∧ list_lines true (tag_counts found)
    = (λ tag, tag +:+ ": " +:+ pretty (length (with_tag tag found)))
      <$> tag_list.
Proof.
  intros tag_list.
  assert (tag_list = sorted (elements (dom (tag_counts found)))) as ->.
  { unfold tag_list, list_lines. apply list_fmap_id. }
  split_and!.
  - apply sorted_StronglySorted.
  - rewrite sorted_Permutation. apply NoDup_elements.
  - apply counted_tags.
  - unfold list_lines. apply list_fmap_ext. intros _ tag _.
    by rewrite tag_counts_default.
Qed.

(** X3: the paths that [find] puts out are the original paths of the
    files found that carry the tag, as often as such files were found, in
    ascending order. *)
Theorem find_paths_sorted_matches tag found :
  StronglySorted String.le (find_paths tag found)
  ∧ find_paths tag found ≡ₚ original <$> with_tag tag found
  ∧ ∀ path, path ∈ find_paths tag found ↔
            ∃ file, file ∈ found ∧ tag ∈ tags file ∧ original file = path.
Proof.
  unfold find_paths. split_and!.
  - apply sorted_StronglySorted.
  - apply sorted_Permutation.
  - intros path. rewrite sorted_Permutation, list_elem_of_fmap.
    setoid_rewrite elem_of_with_tag. naive_solver.
Qed.

End list_and_find.

(** ** Splitting and joining *)

Section split_and_join.
Implicit Types (c : ascii) (s : string) (pieces : list string).

Lemma rfind1_cons c x s :
  Str.rfind1 c (String x s) = 0 ↔ x ≠ c ∧ Str.rfind1 c s = 0.
Proof.
  cbn [Str.rfind1]. destruct (Str.rfind1 c s); [|naive_solver].
  case_decide; naive_solver.
Qed.

Lemma lacks_split c s : lacks c s → Str.split c s = [s].
Proof.
  unfold lacks. induction s as [|x s IH]; [done|].
  intros [Hx Hs]%rfind1_cons. cbn [Str.split].
  rewrite decide_False by done. by rewrite IH.
Qed.

Lemma append_assoc s1 s2 s3 : (s1 +:+ s2) +:+ s3 = s1 +:+ s2 +:+ s3.
Proof.
  induction s1 as [|x s1 IH]; [done|].
  change (String x ((s1 +:+ s2) +:+ s3) = String x (s1 +:+ s2 +:+ s3)).
  by f_equal.
Qed.

Lemma split_join_newline c pieces :
  pieces ≠ [] →
  Forall (λ s, Str.split c s = [s]) pieces →
  Str.split c (Str.join (String c EmptyString) pieces +:+ String c EmptyString)
  = pieces ++ [EmptyString].
Proof.
  intros Hnil Hpieces. induction Hpieces as [|s pieces Hs _ IH]; [done|].
  destruct pieces as [|s' pieces].
  - change (Str.join (String c EmptyString) [s]) with s.
    by rewrite split_first_piece.
  - change (Str.join (String c EmptyString) (s :: s' :: pieces))
      with (s +:+ String c (Str.join (String c EmptyString) (s' :: pieces))).
    rewrite append_assoc.
    change (String c (Str.join (String c EmptyString) (s' :: pieces))
            +:+ String c EmptyString)
      with (String c (Str.join (String c EmptyString) (s' :: pieces)
                      +:+ String c EmptyString)).
    rewrite split_first_piece by done. cbn [app]. f_equal. by apply IH.
Qed.

(** Joining the pieces of a split gives the string back. *)
Lemma join_split c s :
  Str.join (String c EmptyString) (Str.split c s) = s.
Proof.
  induction s as [|x s IH]; [done|]. cbn [Str.split].
  pose proof (split_not_nil c s) as Hnil.
  destruct (Str.split c s) as [|piece rest] eqn:Hsplit; [done|].
  case_decide as Hx.
  - subst x. change (Str.join (String c EmptyString) (EmptyString :: piece :: rest))
      with (String c (Str.join (String c EmptyString) (piece :: rest))).
    by rewrite IH.
  - rewrite <- IH. by destruct rest.
Qed.

Lemma split_pieces_lack c s : Forall (lacks c) (Str.split c s).
Proof.
  induction s as [|x s IH]; [by repeat constructor|]. cbn [Str.split].
  case_decide as Hx; [by constructor|].
  destruct (Str.split c s) as [|piece rest]; [|inv IH].
  - repeat constructor. by apply rfind1_cons.
  - constructor; [|done]. by apply rfind1_cons.
Qed.

End split_and_join.

(** ** The [TAGS] argument and the handlers *)

(** X5: the tag list that [add], [remove] and [set] take from [TAGS] is
    never empty, none of its tags holds a comma, and joined by commas it is
    [TAGS] again; an empty [TAGS] therefore stands for the one tag that is
    the empty string. *)
Theorem tag_list_of_TAGS (tags : string) :
  Str.split "," tags ≠ []
  ∧ Forall (lacks ",") (Str.split "," tags)
  ∧ Str.join "," (Str.split "," tags) = tags
  ∧ Str.split "," EmptyString = [EmptyString].
Proof.
  split_and!; [apply split_not_nil|apply split_pieces_lack| |done].
  apply (join_split ","%char).
Qed.

Section handlers.
Implicit Types (tag_set : gset string) (tag_list : list string).

Lemma size_pos_of_elem tag tag_set : tag ∈ tag_set → 0 < size tag_set.
Proof.
  intros Hin. assert (size tag_set ≠ 0); [|lia].
  apply size_non_empty_iff. set_solver.
Qed.

(** X6: [set] makes the tag set the set of the listed tags whatever it
    was before, a second [set] with the same list changes nothing, and
    since the list taken from [TAGS] is never empty, [set] never leaves a
    file without a tag. *)
Theorem set_replaces_the_tag_set tag_list tag_set tags :
  set_handler tag_list tag_set = list_to_set tag_list
  ∧ set_handler tag_list (set_handler tag_list tag_set)
    = set_handler tag_list tag_set
  ∧ set_handler (Str.split "," tags) tag_set ≠ ∅.
Proof.
  assert (∀ l s, set_handler l s = list_to_set l) as Hset.
  { intros l s. unfold set_handler, add_handler, clear_handler. set_solver. }
  split_and!; [apply Hset|by rewrite !Hset|].
  rewrite Hset. pose proof (split_not_nil ","%char tags) as Hnil.
  destruct (Str.split "," tags) as [|tag rest]; [done|].
  cbn [list_to_set]. set_solver.
Qed.

(** X7: [add] and [remove] as operations on tag sets: each of them done
    twice is the same as done once, two [add]s can be swapped, [add] of
    tags that are all present and [remove] of tags that are all absent
    change nothing, and [remove] followed by [add] of the same list gives
    the union of the tag set and the list. *)
Theorem add_and_remove_compose tag_list tag_list' tag_set :
  add_handler tag_list (add_handler tag_list tag_set)
  = add_handler tag_list tag_set
  ∧ remove_handler tag_list (remove_handler tag_list tag_set)
    = remove_handler tag_list tag_set
  ∧ add_handler tag_list (add_handler tag_list' tag_set)
    = add_handler tag_list' (add_handler tag_list tag_set)
  ∧ add_handler tag_list (remove_handler tag_list tag_set)
    = tag_set ∪ list_to_set tag_list
  ∧ ((∀ tag, tag ∈ tag_list → tag ∈ tag_set) ↔
     add_handler tag_list tag_set = tag_set)
  ∧ ((∀ tag, tag ∈ tag_list → tag ∉ tag_set) ↔
     remove_handler tag_list tag_set = tag_set).
Proof.
  unfold add_handler, remove_handler.
  do 3 (split; [set_solver|]). split; [|split].
  - apply set_eq. intros tag.
    destruct (decide (tag ∈ tag_list)); set_solver.
  - split; [set_solver|]. intros Heq tag Hin. rewrite <- Heq. set_solver.
  - split; [set_solver|]. intros Heq tag Hin Htag. rewrite <- Heq in Htag.
    set_solver.
Qed.

(** X8: [rename old new] on a file that has [old] and not [new] keeps the
    number of tags, and [rename new old] afterwards gives the original tag
    set back. *)
Theorem rename_round_trip old_tag new_tag tag_set :
  old_tag ∈ tag_set → new_tag ∉ tag_set →
  rename_handler new_tag old_tag (rename_handler old_tag new_tag tag_set)
  = tag_set
  ∧ size (rename_handler old_tag new_tag tag_set) = size tag_set.
Proof.
  intros Hold Hnew. unfold rename_handler.
  rewrite (decide_True (P := old_tag ∈ tag_set)) by done.
  rewrite (decide_True (P := new_tag ∈ _)) by set_solver.
  assert (old_tag ≠ new_tag) by (by intros ->).
  split.
  - apply set_eq. intros tag.
    destruct (decide (tag = old_tag)) as [->|]; set_solver.
  - rewrite size_union by set_solver.
    rewrite size_difference by set_solver.
    rewrite !size_singleton.
    pose proof (size_pos_of_elem old_tag tag_set Hold). lia.
Qed.

(** X9: [rename old new] on a file that has both tags leaves one tag
    less: [old] is gone, [new] stays, the other tags are as they were; and
    [rename] of a tag to itself changes nothing, on any file. *)
Theorem rename_onto_present_tag old_tag new_tag tag_set :
  (old_tag ∈ tag_set → new_tag ∈ tag_set → old_tag ≠ new_tag →
   rename_handler old_tag new_tag tag_set = tag_set ∖ {[old_tag]}
   ∧ size tag_set = S (size (rename_handler old_tag new_tag tag_set)))
  ∧ rename_handler old_tag old_tag tag_set = tag_set.
Proof.
  unfold rename_handler. split.
  - intros Hold Hnew Hne. rewrite !decide_True by done.
    assert (tag_set ∖ {[old_tag]} ∪ {[new_tag]} = tag_set ∖ {[old_tag]}) as ->
      by set_solver.
    split; [done|].
    rewrite size_difference by set_solver. rewrite size_singleton.
    pose proof (size_pos_of_elem old_tag tag_set Hold). lia.
  - case_decide as Hold; [|done]. apply set_eq. intros tag.
    destruct (decide (tag = old_tag)) as [->|]; set_solver.
Qed.

End handlers.

Lemma rename_round_trip_witness :
  ("a" ∈ ({["a"; "b"]} : gset string))
  ∧ ("c" ∉ ({["a"; "b"]} : gset string))
  ∧ rename_handler "c" "a" (rename_handler "a" "c" {["a"; "b"]})
    = ({["a"; "b"]} : gset string).
Proof.
  assert ("a" ∈ ({["a"; "b"]} : gset string)) as Hold by set_solver.
  assert ("c" ∉ ({["a"; "b"]} : gset string)) as Hnew by set_solver.
  split_and!; [exact Hold|exact Hnew|].
  exact (proj1 (rename_round_trip "a" "c" {["a"; "b"]} Hold Hnew)).
Defined.

Lemma rename_onto_present_tag_witness :
  ("a" ∈ ({["a"; "b"]} : gset string))
  ∧ ("b" ∈ ({["a"; "b"]} : gset string))
  ∧ "a" ≠ "b"
  ∧ rename_handler "a" "b" {["a"; "b"]}
    = ({["a"; "b"]} : gset string) ∖ {["a"]}
  ∧ rename_handler "a" "a" {["a"]} = ({["a"]} : gset string).
Proof.
  assert ("a" ∈ ({["a"; "b"]} : gset string)) as Hold by set_solver.
  assert ("b" ∈ ({["a"; "b"]} : gset string)) as Hnew by set_solver.
  assert ("a" ≠ "b") as Hne by done.
  split_and!; [exact Hold|exact Hnew|exact Hne| |].
  - exact (proj1 (proj1 (rename_onto_present_tag "a" "b" {["a"; "b"]})
                    Hold Hnew Hne)).
  - exact (proj2 (rename_onto_present_tag "a" "a" {["a"]})).
Defined.

(** ** How many links, and to which files *)

Section index_contents.
Context `{!Util}.
Implicit Types (found file_list : list File) (cs : list (string * File)).

Lemma elem_of_tagged found file :
  file ∈ tagged found ↔ file ∈ found ∧ tags file ≠ ∅.
Proof.
  unfold tagged. rewrite list_elem_of_filter.
  assert (0 < size (tags file) ↔ tags file ≠ ∅) as ->; [|naive_solver].
  split.
  - intros Hsize Heq. rewrite Heq, size_empty in Hsize. lia.
  - intros Hne. assert (size (tags file) ≠ 0); [|lia].
    apply size_non_empty_iff. by intros ?%leibniz_equiv.
Qed.

Lemma index_entry_occupants output tree file_list key :
  default [] (build_index output tree file_list !! key)
  = occupants key (claims output tree file_list).
Proof.
  rewrite build_index_lookup.
  by destruct (occupants key (claims output tree file_list)).
Qed.

Lemma claimed_key_in_index output tree file_list key file :
  (key, file) ∈ claims output tree file_list →
  key ∈ sorted_keys (build_index output tree file_list).
Proof.
  intros Hin. apply sorted_keys_ascending. rewrite build_index_lookup.
  apply elem_of_occupants in Hin.
  destruct (occupants key (claims output tree file_list)); [|by eauto].
  by apply not_elem_of_nil in Hin.
Qed.

Lemma filter_absent (keys : list string) key :
  key ∉ keys → filter (λ k, key = k) keys = [].
Proof.
  induction keys as [|k keys IH]; [done|].
  intros [Hne Hnin]%not_elem_of_cons.
  rewrite filter_cons_False by done. by apply IH.
Qed.

Lemma length_filter_unique (keys : list string) key :
  NoDup keys → key ∈ keys → length (filter (λ k, key = k) keys) = 1.
Proof.
  induction 1 as [|k keys Hk Hnd IH]; intros Hin.
  - by apply not_elem_of_nil in Hin.
  - apply elem_of_cons in Hin as [->|Hin].
    + rewrite filter_cons_True by done. by rewrite filter_absent.
    + rewrite filter_cons_False by (by intros ->). by apply IH.
Qed.

Lemma length_occupants_cons (keys : list string) c cs :
  length (keys ≫= λ key, occupants key (c :: cs))
  = length (filter (λ key, c.1 = key) keys)
    + length (keys ≫= λ key, occupants key cs).
Proof.
  induction keys as [|key keys IH]; [done|].
  cbn [mbind list_bind]. rewrite !length_app, IH, filter_cons.
  unfold occupants at 1. rewrite filter_cons.
  destruct (decide (c.1 = key)); cbn [fmap list_fmap length];
    unfold occupants; lia.
Qed.

(** Every claim is counted under exactly one key. *)
Lemma length_occupants (keys : list string) cs :
  NoDup keys → (∀ c, c ∈ cs → c.1 ∈ keys) →
  length (keys ≫= λ key, occupants key cs) = length cs.
Proof.
  intros Hnd. induction cs as [|c cs IH]; intros Hkeys.
  - clear. induction keys as [|key keys IHk]; [done|].
    cbn [mbind list_bind]. by rewrite length_app, IHk.
  - rewrite length_occupants_cons, length_filter_unique;
      [|done|apply Hkeys, list_elem_of_here].
    rewrite IH; [done|]. intros c' Hc'. by apply Hkeys, list_elem_of_further.
Qed.

Lemma length_links_occupants abspath (index : gmap string (list File))
    (keys : list string) :
  length (keys ≫= key_links abspath index)
  = length (keys ≫= λ key, default [] (index !! key)).
Proof.
  induction keys as [|key keys IH]; [done|].
  cbn [mbind list_bind]. by rewrite !length_app, IH, length_key_links.
Qed.

Lemma length_claims output tree file_list :
  length (claims output tree file_list)
  = sum_list ((λ file, length (permute (sorted (elements (tags file))) tree))
              <$> file_list).
Proof.
  induction file_list as [|file file_list IH]; [done|].
  rewrite claims_cons, length_app, IH. cbn [fmap list_fmap sum_list sum_list_with].
  f_equal. unfold claims. cbn [mbind list_bind]. rewrite app_nil_r.
  induction (permute (sorted (elements (tags file))) tree) as [|perm perms IHp];
    [done|].
  cbn [mbind list_bind length app]. by rewrite IHp.
Qed.

Lemma length_planned_links abspath output tree file_list :
  length (planned_links abspath (build_index output tree file_list))
  = length (claims output tree file_list).
Proof.
  unfold planned_links. rewrite length_links_occupants.
  rewrite <- (length_occupants
                (sorted_keys (build_index output tree file_list))).
  - f_equal. apply list_bind_ext; [|done]. intros key.
    apply index_entry_occupants.
  - apply sorted_keys_ascending.
  - intros [key file] Hin. by eapply claimed_key_in_index.
Qed.

(** X10: the number of links that [index] plans, which is the count it
    reports, is the number of placement paths of the tagged files found,
    file by file; without [--tree] a file with [N] tags has [N!] links. *)
Theorem link_count_is_sum_of_factorials abspath output tree found :
  length (planned_links abspath (build_index output tree (tagged found)))
  = sum_list ((λ file, length (permute (sorted (elements (tags file))) tree))
              <$> tagged found)
  ∧ length (planned_links abspath (build_index output false (tagged found)))
    = sum_list ((λ file, fact (size (tags file))) <$> tagged found).
Proof.
  rewrite !length_planned_links, !length_claims. split; [done|].
  f_equal. apply list_fmap_ext. intros _ file _. unfold permute.
  by rewrite length_permutations, length_sorted.
Qed.

Lemma key_links_sources abspath (index : gmap string (list File)) key :
  (key_links abspath index key).*2 = original <$> default [] (index !! key).
Proof.
  unfold key_links. case_bool_decide as Hlen.
  - by destruct (default [] (index !! key)) as [|file [|??]].
  - rewrite <- list_fmap_compose. by apply list_fmap_ext.
Qed.

Lemma planned_link_sources abspath output tree file_list src :
  src ∈ (planned_links abspath (build_index output tree file_list)).*2 ↔
  ∃ key file, (key, file) ∈ claims output tree file_list
              ∧ original file = src.
Proof.
  unfold planned_links. rewrite list_elem_of_fmap. split.
  - intros ([dst src'] & -> & Hin).
    apply list_elem_of_bind in Hin as (key & Hin & Hkey).
    assert (src' ∈ (key_links abspath
                      (build_index output tree file_list) key).*2) as Hsrc.
    { apply list_elem_of_fmap. by exists (dst, src'). }
    rewrite key_links_sources, index_entry_occupants in Hsrc.
    apply list_elem_of_fmap in Hsrc as (file & -> & Hfile).
    apply elem_of_occupants in Hfile. by exists key, file.
  - intros (key & file & Hin & <-).
    assert (original file
            ∈ (key_links abspath (build_index output tree file_list) key).*2)
      as Hsrc.
    { rewrite key_links_sources, index_entry_occupants.
      apply list_elem_of_fmap. exists file. split; [done|].
      by apply elem_of_occupants. }
    apply list_elem_of_fmap in Hsrc as ([dst src] & Hsrc & Hlink).
    exists (dst, src). split; [done|].
    apply list_elem_of_bind. exists key. split; [done|].
    by eapply claimed_key_in_index.
Qed.

(** X11: without [--tree] the files that [index] links to are the files
    found that carry at least one tag: no file without tags is linked, and
    every tagged file is. *)
Theorem linked_files_are_the_tagged_files abspath output found src :
  src ∈ (planned_links abspath (build_index output false (tagged found))).*2
  ↔ ∃ file, file ∈ found ∧ tags file ≠ ∅ ∧ original file = src.
Proof.
  rewrite planned_link_sources. split.
  - intros (key & file & Hin & Hsrc).
    apply elem_of_claims in Hin as [Hfile _].
    apply elem_of_tagged in Hfile as [??]. by exists file.
  - intros (file & Hfile & Htags & Hsrc).
    exists (index_path output (sorted (elements (tags file))) file), file.
    split; [|done]. apply elem_of_claims. split.
    + by apply elem_of_tagged.
    + eexists. split; [|done]. apply permutations_refl.
Qed.

End index_contents.

(** ** The last component of a key *)

Section last_component.
Implicit Types (c : ascii) (s b : string).

Lemma lacks_cons c x s : lacks c (String x s) ↔ x ≠ c ∧ lacks c s.
Proof. apply rfind1_cons. Qed.

(** What [os.path.split] gives as the last component holds no slash. *)
Lemma tail_lacks c s : lacks c (Str.drop (Str.rfind1 c s) s).
Proof.
  induction s as [|x s IH]; [done|]. cbn [Str.rfind1].
  destruct (Str.rfind1 c s) as [|i] eqn:Hs.
  - case_decide as Hx; [by subst|]. by apply lacks_cons.
  - done.
Qed.

Lemma rfind1_app_lacks c s b :
  lacks c b → Str.rfind1 c (s +:+ b) = Str.rfind1 c s.
Proof.
  intros Hb. induction s as [|x s IH].
  - by destruct b.
  - change (String x s +:+ b) with (String x (s +:+ b)).
    cbn [Str.rfind1]. by rewrite IH.
Qed.

Lemma rfind1_app_sep c s b :
  lacks c b → Str.rfind1 c (s +:+ String c b) = String.length s + 1.
Proof.
  intros Hb. induction s as [|x s IH].
  - change (EmptyString +:+ String c b) with (String c b).
    cbn [Str.rfind1 String.length]. unfold lacks in Hb. rewrite Hb.
    by rewrite decide_True.
  - change (String x s +:+ String c b) with (String x (s +:+ String c b)).
    cbn [Str.rfind1 String.length]. rewrite IH.
    replace (String.length s + 1) with (S (String.length s)) by lia. lia.
Qed.

Lemma endswith_rfind1 c s :
  Str.endswith c s = true → Str.rfind1 c s = String.length s.
Proof.
  induction s as [|x s IH]; [done|]. destruct s as [|y s].
  - cbn. intros ->%bool_decide_eq_true. by rewrite decide_True.
  - intros Hend.
    change (Str.endswith c (String x (String y s)))
      with (Str.endswith c (String y s)) in Hend.
    change (Str.rfind1 c (String x (String y s)))
      with (match Str.rfind1 c (String y s) with
            | 0 => if decide (x = c) then 1 else 0
            | S i => S (S i)
            end).
    by rewrite (IH Hend).
Qed.

Lemma drop_prefix s b : Str.drop (String.length s) (s +:+ b) = b.
Proof. induction s as [|x s IH]; [by destruct b|]. apply IH. Qed.

(** Joining a name without a slash to any path and splitting the result
    gives the name back. *)
Lemma tail_of_join_step path b :
  lacks os_sep b →
  Str.drop (Str.rfind1 os_sep (join_step path b)) (join_step path b) = b.
Proof.
  intros Hb. unfold join_step.
  assert (Str.startswith os_sep b = false) as ->.
  { destruct b as [|x b]; [done|]. apply lacks_cons in Hb as [Hx _].
    cbn. by rewrite bool_decide_eq_false_2. }
  destruct path as [|x path].
  - cbn [Str.truthy negb orb]. change (EmptyString +:+ b) with b.
    unfold lacks in Hb. rewrite Hb. by destruct b.
  - cbn [Str.truthy negb orb].
    destruct (Str.endswith os_sep (String x path)) eqn:Hend.
    + rewrite rfind1_app_lacks by done.
      rewrite (endswith_rfind1 _ _ Hend). apply drop_prefix.
    + rewrite rfind1_app_sep by done. apply drop_past_prefix.
Qed.

Lemma split_join_last head (segments : list string) name :
  lacks os_sep name →
  (os_path_split (os_path_join head (segments ++ [name]))).2 = name.
Proof.
  intros Hname. unfold os_path_join. rewrite foldl_app. cbn [foldl].
  unfold os_path_split. cbn [snd]. by apply tail_of_join_step.
Qed.

(** X12: whatever the output path and the tags, the last component of an
    index key is the file name of the original: [parent], which [_index]
    takes from the key with [os.path.split], is the key without that
    name. *)
Theorem key_ends_in_original_name output perm file :
  (os_path_split (index_path output perm file)).2
  = (os_path_split (original file)).2.
Proof.
  unfold index_path. apply split_join_last.
  unfold os_path_split. cbn [snd]. apply tail_lacks.
Qed.

End last_component.

(** ** How [index] fails *)

Section failures.
Context {FS : Type} `{!OS FS, !Discovery FS, !Util}.
Implicit Types (w : world FS).

Lemma fails_in_os_emits {A} (m : M FS A) a lines :
  emits m a lines → fails_in_os m.
Proof. intros Hm w e w' Hrun. by rewrite Hm in Hrun. Qed.

Lemma fails_in_os_try_write (f : FS → option FS) : fails_in_os (try_write f).
Proof.
  intros w e w' Hrun. unfold try_write in Hrun.
  destruct (f (w_fs w)); by simplify_eq.
Qed.

Lemma fails_in_os_bind {A B} (m : M FS A) (f : A → M FS B) :
  fails_in_os m → (∀ a, fails_in_os (f a)) → fails_in_os (m ≫= f).
Proof.
  intros Hm Hf w e w' Hrun. rewrite bind_run in Hrun.
  destruct (m w) as [[a|e'] w1] eqn:Hmw.
  - by eapply Hf.
  - simplify_eq. by eapply Hm.
Qed.

Lemma fails_in_os_when (b : bool) (m : M FS ()) :
  fails_in_os m → fails_in_os (when b m).
Proof.
  destruct b; [done|]. intros _. eapply fails_in_os_emits, emits_ret.
Qed.

Lemma fails_in_os_for_each {A} (xs : list A) (body : A → M FS ()) :
  (∀ x, fails_in_os (body x)) → fails_in_os (for_each xs body).
Proof.
  intros Hbody. induction xs as [|x xs IH].
  - eapply fails_in_os_emits, emits_ret.
  - cbn [for_each]. by apply fails_in_os_bind.
Qed.

Lemma fails_in_os_for_fold {A B} (xs : list A) (body : B → A → M FS B) acc :
  (∀ acc x, fails_in_os (body acc x)) → fails_in_os (for_fold xs body acc).
Proof.
  intros Hbody. revert acc. induction xs as [|x xs IH]; intros acc.
  - eapply fails_in_os_emits, emits_ret.
  - cbn [for_fold]. by apply fails_in_os_bind.
Qed.

Lemma fails_in_os_place debug verbose src dst :
  fails_in_os (Tag.place debug verbose src dst : M FS ()).
Proof.
  unfold Tag.place. apply fails_in_os_bind.
  - eapply fails_in_os_when, fails_in_os_emits, emits_echo.
  - intros _. apply fails_in_os_when, fails_in_os_try_write.
Qed.

Lemma fails_in_os_index_key debug verbose abspath
    (index : gmap string (list File)) count key :
  fails_in_os (Tag.index_key debug verbose abspath index count key : M FS nat).
Proof.
  unfold Tag.index_key. apply fails_in_os_bind.
  { apply fails_in_os_when, fails_in_os_try_write. }
  intros _. apply fails_in_os_bind.
  - case_bool_decide.
    + destruct (default [] (index !! key)) as [|file ?].
      * eapply fails_in_os_emits, emits_ret.
      * apply fails_in_os_place.
    + apply fails_in_os_for_each. intros file. apply fails_in_os_place.
  - intros _. eapply fails_in_os_emits, emits_ret.
Qed.

(** X13: [index] raises its own error only for an [OUTPUT] that exists
    and has entries, and then before anything is changed or printed; every
    other failure of a run is an error of an [os] call. *)
Theorem index_fails_by_conflict_or_in_os all debug recursive tree verbose
    path output w e w' :
  Tag._index all debug recursive tree verbose path output w = (Raise e, w') →
  (e = ClickException (Tag.conflict_message output)
   ∧ w' = w
   ∧ os_path_exists (w_fs w) output = true
   ∧ ∃ entry entries, os_listdir (w_fs w) output = Some (entry :: entries))
  ∨ e = OSError.
Proof.
  rewrite Tag_index_run, output_has_content_run. cbn zeta.
  destruct (os_path_exists (w_fs w) output) eqn:Hexists.
  - destruct (os_listdir (w_fs w) output) as [[|entry entries]|] eqn:Hlist.
    + rewrite bool_decide_eq_false_2 by naive_solver. intros Hrun. right.
      revert Hrun. apply fails_in_os_bind.
      * apply fails_in_os_for_fold. intros count key.
        apply fails_in_os_index_key.
      * intros count. eapply fails_in_os_emits, emits_report_count.
    + rewrite bool_decide_eq_true_2 by done. intros ?. simplify_eq.
      left. eauto 10.
    + intros ?. simplify_eq. by right.
  - intros Hrun. right. revert Hrun. apply fails_in_os_bind.
    + apply fails_in_os_for_fold. intros count key.
      apply fails_in_os_index_key.
    + intros count. eapply fails_in_os_emits, emits_report_count.
Qed.

(** X14: where [OUTPUT] is absent or empty, the [index] of
    [src/src/cli.py], run with [--debug], does what the [index] of
    [src/tag/cli.py] does with [--debug] and without [--tree]: the same
    result, the same lines, nothing changed. *)
Theorem older_index_is_the_dry_run all recursive verbose path output w :
  os_path_exists (w_fs w) output = false
  ∨ os_listdir (w_fs w) output = Some [] →
  Src._index all true recursive verbose path output w
  = Tag._index all true recursive false verbose path output w.
Proof.
  intros Hfree. rewrite Src_index_run, Tag_index_run, output_has_content_run.
  cbn zeta. rewrite (Tag_dry_loops_emit verbose _ _ w).
  destruct Hfree as [->| Hlist]; [done|]. rewrite Hlist.
  destruct (os_path_exists (w_fs w) output); [|done].
  by rewrite bool_decide_eq_false_2 by naive_solver.
Qed.

End failures.

Lemma index_fails_by_conflict_or_in_os_witness :
  let w := World (JournalFs {["out" := ["stale"]]} [x_foo] []) [] in
  @Tag._index _ _ _ flat_util false false false false true "/r" "out" w
  = (Raise (ClickException (Tag.conflict_message "out")), w)
  ∧ ((ClickException (Tag.conflict_message "out")
      = ClickException (Tag.conflict_message "out")
      ∧ w = w
      ∧ os_path_exists (w_fs w) "out" = true
      ∧ ∃ entry entries, os_listdir (w_fs w) "out" = Some (entry :: entries))
     ∨ ClickException (Tag.conflict_message "out") = OSError).
Proof.
  intros w.
  assert (@Tag._index _ _ _ flat_util false false false false true "/r" "out" w
          = (Raise (ClickException (Tag.conflict_message "out")), w)) as Hrun
    by (vm_compute; reflexivity).
  split; [exact Hrun|].
  exact (@index_fails_by_conflict_or_in_os _ _ _ flat_util false false false
           false true "/r" "out" w _ w Hrun).
Defined.

Lemma older_index_is_the_dry_run_witness :
  let w := fresh_world [a_x_foo; b_x_foo; x_b_a] in
  (os_path_exists (w_fs w) "out" = false
   ∨ os_listdir (w_fs w) "out" = Some [])
  ∧ @Src._index _ _ _ flat_util false true true true "/r" "out" w
    = @Tag._index _ _ _ flat_util false true true false true "/r" "out" w.
Proof.
  intros w.
  assert (os_path_exists (w_fs w) "out" = false
          ∨ os_listdir (w_fs w) "out" = Some []) as Hfree
    by (left; vm_compute; reflexivity).
  split; [exact Hfree|].
  exact (@older_index_is_the_dry_run _ _ _ flat_util false true true "/r"
           "out" w Hfree).
Defined.

Lemma real_run_makes_the_planned_links_witness :
  let w := fresh_world [a_x_foo; b_x_foo; x_b_a] in
  let run :=
    @Tag._index _ _ _ flat_util false false true false true "/r" "out" w in
  let index :=
    @build_index flat_util "out" false (tagged [a_x_foo; b_x_foo; x_b_a]) in
  run = (Ok (), run.2)
  ∧ journal (w_fs run.2)
    = journal (w_fs w) ++ (sorted_keys index ≫= key_ops "/r" index).
Proof.
  intros w run index.
  assert (run = (Ok (), run.2)) as Hrun by (vm_compute; reflexivity).
  split; [exact Hrun|].
  exact (@real_run_makes_the_planned_links flat_util false true false true
           "/r" "out" w run.2 Hrun).
Defined.

(** ** Names under a shared key *)

Section shared_keys.
Implicit Types (index : gmap string (list File)) (s : string).

Lemma take_drop n s : Str.take n s +:+ Str.drop n s = s.
Proof.
  revert s. induction n as [|n IH]; intros [|x s]; try done.
  change (String x (Str.take n s +:+ Str.drop n s) = String x s).
  by rewrite IH.
Qed.

(** [os.path.splitext] cuts a name in two. *)
Lemma splitext_concat s :
  (os_path_splitext s).1 +:+ (os_path_splitext s).2 = s.
Proof.
  unfold os_path_splitext. destruct (_ && _); cbn [fst snd].
  - apply take_drop.
  - induction s as [|x s IH]; [done|].
    change (String x (s +:+ EmptyString) = String x s). by rewrite IH.
Qed.

Lemma join_not_empty sep s (rest : list string) :
  s ≠ EmptyString → Str.join sep (s :: rest) ≠ EmptyString.
Proof. intros Hs. destruct s as [|x s]; [done|]. by destruct rest. Qed.

(** X16: under a key that several files claim, and for a search root that
    is not followed by a further slash in the directories of the files, the
    link of a file directly in the search root has the plain name of the
    file, and the link of a file in a directory below it has the names of
    the directories from the root down, joined by hyphens, between the
    two parts into which [os.path.splitext] cuts the plain name. *)
Theorem shared_key_link_names abspath index key files file
    (segments : list string) :
  index !! key = Some files → length files ≠ 1 → file ∈ files →
  Forall (λ s, s ≠ EmptyString ∧ lacks os_sep s) segments →
  dir file = match segments with
             | [] => abspath
             | _ => abspath +:+ "/" +:+ Str.join "/" segments
             end →
  let base := (os_path_splitext (filename file)).1 in
  let ext := (os_path_splitext (filename file)).2 in
  let name := match segments with
              | [] => filename file
              | _ => base +:+ "-" +:+ Str.join "-" segments +:+ ext
              end in
  base +:+ ext = filename file
  ∧ (os_path_join (os_path_split key).1 [name], original file)
    ∈ key_links abspath index key.
Proof.
  intros Hkey Hlen Hfile Hsegs Hdir base ext name.
  split; [apply splitext_concat|].
  rewrite (shared_key_links _ _ _ files) by done.
  apply list_elem_of_fmap. exists file. split; [|done].
  assert (disambiguated abspath file = name) as ->; [|done].
  unfold name. destruct segments as [|s segments].
  - by apply disambiguated_in_search_root.
  - apply disambiguated_below_search_root; [done| | |done].
    + eapply Forall_impl; [exact Hsegs|]. intros s' [_ Hs'].
      by apply lacks_split.
    + apply join_not_empty. by apply Forall_cons in Hsegs as [[Hs _] _].
Qed.

End shared_keys.

Lemma shared_key_link_names_witness :
  let index := @build_index flat_util "out" false (tagged [a_x_foo; b_x_foo]) in
  index !! "out/foo/x{foo}.txt" = Some [a_x_foo; b_x_foo]
  ∧ length [a_x_foo; b_x_foo] ≠ 1
  ∧ a_x_foo ∈ [a_x_foo; b_x_foo]
  ∧ Forall (λ s, s ≠ EmptyString ∧ lacks os_sep s) ["a"]
  ∧ dir a_x_foo = "/r" +:+ "/" +:+ Str.join "/" ["a"]
  ∧ (os_path_join (os_path_split "out/foo/x{foo}.txt").1
       [(os_path_splitext (filename a_x_foo)).1 +:+ "-" +:+ Str.join "-" ["a"]
        +:+ (os_path_splitext (filename a_x_foo)).2],
     original a_x_foo)
    ∈ key_links "/r" index "out/foo/x{foo}.txt".
Proof.
  intros index.
  assert (index !! "out/foo/x{foo}.txt" = Some [a_x_foo; b_x_foo]) as Hkey
    by (vm_compute; reflexivity).
  assert (length [a_x_foo; b_x_foo] ≠ 1) as Hlen by done.
  assert (a_x_foo ∈ [a_x_foo; b_x_foo]) as Hfile by apply list_elem_of_here.
  assert (Forall (λ s, s ≠ EmptyString ∧ lacks os_sep s) ["a"]) as Hsegs.
  { repeat constructor; done. }
  assert (dir a_x_foo = "/r" +:+ "/" +:+ Str.join "/" ["a"]) as Hdir
    by reflexivity.
  split_and!; [exact Hkey|exact Hlen|exact Hfile|exact Hsegs|exact Hdir|].
  exact (proj2 (shared_key_link_names "/r" index "out/foo/x{foo}.txt"
                  [a_x_foo; b_x_foo] a_x_foo ["a"] Hkey Hlen Hfile Hsegs
                  Hdir)).
Defined.

(** ** One key for every ordering *)

Section distinct_keys.
Context `{!Util}.
Implicit Types (s b : string) (segments : list string).

Lemma endswith_app_segment c s b :
  b ≠ EmptyString → lacks c b → Str.endswith c (s +:+ b) = false.
Proof.
  intros Hb Hlacks. induction s as [|x s IH].
  - change (EmptyString +:+ b) with b. clear Hb.
    induction b as [|y b IHb]; [done|].
    apply lacks_cons in Hlacks as [Hy Hlacks]. destruct b as [|z b].
    + cbn. by rewrite bool_decide_eq_false_2.
    + by apply IHb.
  - change (String x s +:+ b) with (String x (s +:+ b)).
    destruct (s +:+ b) as [|y r] eqn:Hsb; [|done].
    destruct s; [|done]. by destruct b.
Qed.

Lemma join_step_segment a b : segment b → join_step a b = joint a +:+ b.
Proof.
  intros [Hb Hlacks]. unfold join_step, joint.
  assert (Str.startswith os_sep b = false) as ->.
  { destruct b as [|x b]; [done|]. apply lacks_cons in Hlacks as [Hx _].
    cbn. by rewrite bool_decide_eq_false_2. }
  destruct (negb (Str.truthy a) || Str.endswith os_sep a); [done|].
  by rewrite append_assoc.
Qed.

Lemma joint_after_segment a b :
  segment b →
  joint (joint a +:+ b) = joint a +:+ b +:+ String os_sep EmptyString.
Proof.
  intros [Hb Hlacks]. unfold joint at 1.
  rewrite endswith_app_segment by done.
  assert (Str.truthy (joint a +:+ b) = true) as ->.
  { destruct (joint a); [by destruct b|done]. }
  cbn [negb orb]. by rewrite append_assoc.
Qed.

(** Joining segments to a path puts them after it, slashes between. *)
Lemma os_path_join_segments a segments :
  segments ≠ [] → Forall segment segments →
  os_path_join a segments = joint a +:+ Str.join "/" segments.
Proof.
  intros Hnil Hsegs. revert a.
  induction Hsegs as [|b segments Hb Hsegs IH]; [done|]. intros a.
  destruct segments as [|b' segments].
  - cbn. by apply join_step_segment.
  - change (os_path_join a (b :: b' :: segments))
      with (os_path_join (join_step a b) (b' :: segments)).
    rewrite IH by done. rewrite join_step_segment by done.
    rewrite joint_after_segment by done.
    change (Str.join "/" (b :: b' :: segments))
      with (b +:+ String os_sep (Str.join "/" (b' :: segments))).
    by rewrite !append_assoc.
Qed.

Lemma os_path_join_inj a segments1 segments2 :
  segments1 ≠ [] → segments2 ≠ [] →
  Forall segment segments1 → Forall segment segments2 →
  os_path_join a segments1 = os_path_join a segments2 →
  segments1 = segments2.
Proof.
  intros Hnil1 Hnil2 Hsegs1 Hsegs2.
  rewrite !os_path_join_segments by done. intros Heq%(inj _).
  rewrite <- (split_join os_sep segments1), <- (split_join os_sep segments2);
    [by f_equal|done| |done|].
  - eapply Forall_impl; [exact Hsegs2|]. intros s [_ Hs]. by apply lacks_split.
  - eapply Forall_impl; [exact Hsegs1|]. intros s [_ Hs]. by apply lacks_split.
Qed.

(** X17: for a file whose tags are path segments (not empty, no slash)
    and whose original path does not end in a slash, the keys of different
    orderings of its tags differ: without [--tree] a file with [N] tags
    claims [N!] keys, no key twice. *)
Theorem orderings_have_distinct_keys output file :
  (∀ tag, tag ∈ tags file → segment tag) →
  (os_path_split (original file)).2 ≠ EmptyString →
  let keys := (λ perm, index_path output perm file)
              <$> permute (sorted (elements (tags file))) false in
  NoDup keys ∧ length keys = fact (size (tags file)).
Proof.
  intros Htags Hname keys. split.
  - apply NoDup_fmap_2_strong.
    + intros perm1 perm2 Hperm1 Hperm2 Hkey.
      assert (∀ perm, perm ∈ permutations (sorted (elements (tags file))) →
                      Forall segment (perm ++ [(os_path_split (original file)).2]))
        as Hsegs.
      { intros perm Hperm%permutations_Permutation.
        apply Forall_app. split.
        - apply Forall_forall. intros tag Htag. apply Htags.
          rewrite <- Hperm, sorted_Permutation in Htag.
          by apply elem_of_elements.
        - repeat constructor; [done|].
          unfold os_path_split. cbn [snd]. apply tail_lacks. }
      unfold index_path in Hkey.
      apply os_path_join_inj in Hkey;
        [by apply app_inv_tail in Hkey|by destruct perm1|by destruct perm2
        |by apply Hsegs..].
    + apply NoDup_permutations. rewrite sorted_Permutation.
      apply NoDup_elements.
  - unfold keys, permute.
    by rewrite length_fmap, length_permutations, length_sorted.
Qed.

End distinct_keys.

Lemma orderings_have_distinct_keys_witness :
  (∀ tag, tag ∈ tags x_b_a → segment tag)
  ∧ (os_path_split (original x_b_a)).2 ≠ EmptyString
  ∧ NoDup ((λ perm, index_path "out" perm x_b_a)
           <$> @permute flat_util (sorted (elements (tags x_b_a))) false).
Proof.
  assert (∀ tag, tag ∈ tags x_b_a → segment tag) as Htags.
  { intros tag Htag. cbn in Htag.
    assert (tag = "a" ∨ tag = "b") as [->| ->] by set_solver; by split. }
  assert ((os_path_split (original x_b_a)).2 ≠ EmptyString) as Hname by done.
  split_and!; [exact Htags|exact Hname|].
  exact (proj1 (@orderings_have_distinct_keys flat_util "out" x_b_a Htags
                  Hname)).
Defined.

(** ** [find] and [list] together *)

(** X18: on the same files, [find tag] puts out as many paths as
    [list --count] shows for the tag, and [list] shows a tag exactly when
    [find] has a path for it. *)
Theorem find_agrees_with_list (found : list File) (tag : string) :
  length (find_paths tag found) = default 0 (tag_counts found !! tag)
  ∧ (tag ∈ list_lines false (tag_counts found) ↔ find_paths tag found ≠ []).
Proof.
  split.
  - unfold find_paths. by rewrite length_sorted, length_fmap, tag_counts_default.
  - unfold list_lines. rewrite list_fmap_id, counted_tags.
    assert (find_paths tag found ≠ [] ↔ with_tag tag found ≠ []) as ->.
    { unfold find_paths. split; intros Hne Heq; apply Hne.
      - by rewrite Heq.
      - apply nil_length_inv. apply (f_equal length) in Heq.
        by rewrite length_sorted, length_fmap in Heq. }
    split.
    + intros (file & Hfile & Htag) Hnil.
      assert (file ∈ with_tag tag found) as Hin by by apply elem_of_with_tag.
      rewrite Hnil in Hin. by apply not_elem_of_nil in Hin.
    + destruct (with_tag tag found) as [|file files] eqn:Hfiles; [done|].
      intros _. exists file. apply elem_of_with_tag. rewrite Hfiles.
      apply list_elem_of_here.
Qed.

(** ** The text that [find] writes *)

Section find_output.
Context {FS : Type} `{!OS FS, !Discovery FS, !TreeOutput}.

Lemma strip_go_lacks s : lacks ESC s → strip_go 0 s = s.
Proof.
  induction s as [|x s IH]; [done|]. intros [Hx Hs]%lacks_cons.
  cbn [strip_go]. rewrite decide_False by done. by rewrite IH.
Qed.

Lemma lacks_app c s b : lacks c s → lacks c b → lacks c (s +:+ b).
Proof. intros Hs Hb. unfold lacks. by rewrite rfind1_app_lacks. Qed.

Lemma lacks_join c sep (pieces : list string) :
  lacks c sep → Forall (lacks c) pieces → lacks c (Str.join sep pieces).
Proof.
  intros Hsep Hpieces. induction Hpieces as [|s pieces Hs _ IH]; [done|].
  destruct pieces as [|s' pieces]; [done|].
  change (Str.join sep (s :: s' :: pieces))
    with (s +:+ sep +:+ Str.join sep (s' :: pieces)).
  by repeat apply lacks_app.
Qed.

(** What [click.echo] writes is the message and the newline, when
    standard output is a terminal or the message holds no escape
    character. *)
Lemma echoed_verbatim isatty message nl :
  isatty = true ∨ lacks ESC message →
  echoed isatty message nl = if nl then message +:+ LF else message.
Proof.
  intros [->|Hesc]; [done|]. unfold echoed.
  destruct isatty; [done|]. apply strip_go_lacks.
  destruct nl; [|done]. by apply lacks_app.
Qed.

(** X4: without [--tree] the output of [find] can be taken apart again
    when standard output is a terminal or no path holds an escape
    character ([click.echo] takes ANSI escape sequences out otherwise):
    under [--null], when no path holds NUL, splitting the text at NUL gives
    the paths back; without it, when no path holds a newline, splitting the
    text at the newline gives the paths and the empty piece after the last
    newline. When nothing matches, the text is empty, or a single
    newline. *)
Theorem find_output_parses_back isatty all recursive tag path (fs : FS) :
  let paths := find_paths tag (find_files fs path recursive all) in
  let shown := match paths with [] => [EmptyString] | _ => paths end in
  isatty = true ∨ Forall (lacks ESC) paths →
  (Forall (lacks (ascii_of_nat 0)) paths →
   Str.split (ascii_of_nat 0)
     (_find isatty all true recursive false tag path fs) = shown)
  ∧ (Forall (lacks (ascii_of_nat 10)) paths →
     Str.split (ascii_of_nat 10)
       (_find isatty all false recursive false tag path fs)
     = shown ++ [EmptyString]).
Proof.
  intros paths shown Hverbatim. unfold _find. fold paths.
  assert (∀ null, isatty = true
                  ∨ lacks ESC (Str.join (delimiter null) paths)) as Hesc.
  { intros null. destruct Hverbatim as [->|Hpaths]; [by left|right].
    apply lacks_join; [|done]. by destruct null. }
  rewrite !echoed_verbatim by apply Hesc. cbn [negb delimiter].
  split.
  - intros Hnul. destruct paths as [|p paths'] eqn:Hpaths; [done|].
    apply (split_join (ascii_of_nat 0)); [done|].
    eapply Forall_impl; [exact Hnul|]. intros s. apply lacks_split.
  - intros Hlf. destruct paths as [|p paths'] eqn:Hpaths; [done|].
    apply (split_join_newline (ascii_of_nat 10)); [done|].
    eapply Forall_impl; [exact Hlf|]. intros s. apply lacks_split.
Qed.

End find_output.

Lemma find_output_parses_back_witness :
  let fs := JournalFs ∅ [x_foo; a_x_foo; x_b_a] [] in
  let paths := find_paths "foo" (find_files fs "/r" true false) in
  (false = true ∨ Forall (lacks ESC) paths)
  ∧ Forall (lacks (ascii_of_nat 0)) paths
  ∧ Forall (lacks (ascii_of_nat 10)) paths
  ∧ Str.split (ascii_of_nat 0)
      (@_find _ _ _ plain_tree false false true true false "foo" "/r" fs)
    = ["/r/a/x{foo}.txt"; "/r/x{foo}.txt"]
  ∧ Str.split (ascii_of_nat 10)
      (@_find _ _ _ plain_tree false false false true false "foo" "/r" fs)
    = ["/r/a/x{foo}.txt"; "/r/x{foo}.txt"; EmptyString].
Proof.
  intros fs paths.
  assert (false = true ∨ Forall (lacks ESC) paths) as Hesc
    by (right; apply (bool_decide_unpack _); vm_compute; exact I).
  assert (Forall (lacks (ascii_of_nat 0)) paths) as Hnul
    by (apply (bool_decide_unpack _); vm_compute; exact I).
  assert (Forall (lacks (ascii_of_nat 10)) paths) as Hlf
    by (apply (bool_decide_unpack _); vm_compute; exact I).
  split_and!; [exact Hesc|exact Hnul|exact Hlf| |].
  - exact (proj1 (@find_output_parses_back _ _ _ plain_tree false false true
                    "foo" "/r" fs Hesc) Hnul).
  - exact (proj2 (@find_output_parses_back _ _ _ plain_tree false false true
                    "foo" "/r" fs Hesc) Hlf).
Defined.

(** With an escape sequence in a path and standard output not a terminal,
    the text of [find] is not the path. *)
Example find_strips_escape_sequences :
  let file := mkFile ("/r/" +:+ String ESC "[1mx{foo}.txt") "/r"
                     (String ESC "[1mx.txt") (String ESC "[1mx") ".txt"
                     {["foo"]} in
  let fs := JournalFs ∅ [file] [] in
  @_find _ _ _ plain_tree false false true false false "foo" "/r" fs
  = "/r/x{foo}.txt"
  ∧ @_find _ _ _ plain_tree true false true false false "foo" "/r" fs
    = original file.
Proof. vm_compute. split; reflexivity. Qed.
